(** * try_multimodal: training orchestration and multimodal loss

    A shallow embedding of the two source files of the repository,

    - [CLIP/train.py]         (module [Train]): learning-rate schedule,
      batch fetching, evaluation and the checkpointing loop;
    - [tinymm/ALBEF/model.py] (module [ALBEF]): the forward pass that builds
      the contrastive and the masked-token losses,

    together with the properties the specification states about them.

    Modelling conventions.
    - Python [int] is [Z]; tensor sizes and indices are [nat].
    - Python [float] is idealised as an exact number: a rational ([Q]) where
      the code only adds, divides and compares (evaluation averages, the
      checkpoint test, the decay fraction), so that these parts run inside
      Rocq; a real ([R]) where the code needs [cos], [exp], [log] or [sqrt].
      Rounding and infinities are not modelled there; the [OverflowError]
      of converting an [int] too large for a double is, and so is the one
      not-a-number the code can produce by construction, the mean over an
      empty set inside [F.cross_entropy].
    - The warmup ramp of the schedule is also given in binary64 itself
      (module [TrainFloat], on the kernel's primitive floats), where rounding
      decides a property.
    - A Python exception is a value [Raise e] of type [result]. *)

From Stdlib Require Import ZArith QArith Qreals Reals Lra Lia List Bool.
From Stdlib Require Import Permutation.
From Stdlib Require Lqa.
From Stdlib Require Import Sorted.
From Stdlib Require Floats.
Import ListNotations.

(** ** Exceptions and the error monad *)

Inductive exn : Type :=
| ZeroDivisionError
| AssertionError
| StopIteration
| ValueError
| IndexError
| RuntimeError
| OverflowError.

Inductive result (A : Type) : Type :=
| Ok (a : A)
| Raise (e : exn).

Arguments Ok {A} a.
Arguments Raise {A} e.

Definition bind {A B : Type} (m : result A) (k : A -> result B) : result B :=
  match m with
  | Ok a => k a
  | Raise e => Raise e
  end.

Notation "x <- m ;; k" := (bind m (fun x => k))
  (at level 61, m at next level, right associativity).
Notation "' p <- m ;; k" := (bind m (fun x => match x with p => k end))
  (at level 61, p pattern, m at next level, right associativity).

(** * CLIP/train.py *)

Module Train.

(** ** [TrainConfig] *)

Record TrainConfig : Type := {
  eval_ratio : Q;
  batch_size : Z;
  num_workers : Z;
  resume : bool;
  lr : R;
  min_lr : R;
  grad_clip : R;
  seq_len : Z;
  log_iters : Z;
  eval_iters : Z;
  warmup_iters : Z;
  lr_decay_iters : Z;
  max_iters : Z
}.

(** The defaults of the dataclass. *)
Definition default_config : TrainConfig := {|
  eval_ratio := 1 # 10;
  batch_size := 128;
  num_workers := 4;
  resume := false;
  lr := (1 / 10000)%R;
  min_lr := (1 / 1000000)%R;
  grad_clip := 100%R;
  seq_len := 64;
  log_iters := 2000;
  eval_iters := 10000;
  warmup_iters := 2000;
  lr_decay_iters := 128000;
  max_iters := 1000000
|}.

(** ** [Trainer.get_lr] *)

(** [decay_ratio] of the source: an [int / int] true division.  It is only
    evaluated when the divisor is not zero (see [get_lr]). *)
Definition decay_ratio (config : TrainConfig) (iteration : Z) : Q :=
  (inject_Z (iteration - warmup_iters config)
   / inject_Z (lr_decay_iters config - warmup_iters config))%Q.

(** [coeff = 0.5 * (1.0 + math.cos(math.pi * decay_ratio))] *)
Definition coeff (ratio : Q) : R :=
  (/ 2 * (1 + cos (PI * Q2R ratio)))%R.

(** An [int] operand of a float operation is first converted to a double,
    rounding to nearest with ties to even; the conversion raises
    [OverflowError] when the rounded magnitude reaches [2^1024], that is from
    the midpoint [2^1024 - 2^970 = (2^54 - 1) * 2^970] on: when the bits of
    the magnitude above bit 970 reach [2^54 - 1]. *)
Definition float_overflows (i : Z) : bool :=
  (2 ^ 54 - 1 <=? Z.shiftr (Z.abs i) 970)%Z.

Arguments float_overflows : simpl never.

Definition get_lr (config : TrainConfig) (iteration : Z) : result R :=
  (* 1) linear warmup for warmup_iters steps *)
  if (iteration <? warmup_iters config)%Z then
    (* lr * iteration, then / warmup_iters: each converts its int operand *)
    if float_overflows iteration then Raise OverflowError
    else if float_overflows (warmup_iters config) then Raise OverflowError
    else if (warmup_iters config =? 0)%Z then Raise ZeroDivisionError
    else Ok (lr config * IZR iteration / IZR (warmup_iters config))%R
  (* 2) if it > lr_decay_iters, return min learning rate *)
  else if (iteration >? lr_decay_iters config)%Z then
    Ok (min_lr config)
  (* 3) in between, use cosine decay down to min learning rate *)
  else if (lr_decay_iters config - warmup_iters config =? 0)%Z then
    Raise ZeroDivisionError
  else
    let ratio := decay_ratio config iteration in
    if Qle_bool 0 ratio && Qle_bool ratio 1 then
      Ok (min_lr config + coeff ratio * (lr config - min_lr config))%R
    else Raise AssertionError.


(** ** Data loaders

    [torch.utils.data.DataLoader] with [drop_last=False]: one pass cuts the
    (possibly shuffled) dataset into consecutive batches of [batch_size]
    samples, the last one holding the remainder when there is one. *)

Section Loader.

Context {A : Type}.

Fixpoint chunks (fuel : nat) (b : nat) (l : list A) : list (list A) :=
  match fuel with
  | O => []
  | S fuel' =>
      match l with
      | [] => []
      | _ :: _ => firstn b l :: chunks fuel' b (skipn b l)
      end
  end.

(** [shuffle] is the order in which pass number [k] visits the dataset:
    the identity for [shuffle=False], a fresh permutation per pass for
    [shuffle=True]. *)
Record DataLoader : Type := {
  dataset : list A;
  loader_batch_size : Z;
  shuffle : nat -> list A -> list A
}.

(** The constructor refuses a batch size that is not positive. *)
Definition new_loader (ds : list A) (bs : Z) (sh : nat -> list A -> list A)
  : result DataLoader :=
  if (bs <=? 0)%Z then Raise ValueError
  else Ok {| dataset := ds; loader_batch_size := bs; shuffle := sh |}.

(** [DataLoader(ds, bs, shuffle=True)]: the random sampler it builds refuses
    an empty dataset. *)
Definition new_shuffled_loader (ds : list A) (bs : Z)
    (sh : nat -> list A -> list A) : result DataLoader :=
  match ds with
  | [] => Raise ValueError
  | _ :: _ => new_loader ds bs sh
  end.

(** [iter(loader)], as the [k]-th iterator made from this loader. *)
Definition iter (ld : DataLoader) (k : nat) : list (list A) :=
  let pass := shuffle ld k (dataset ld) in
  chunks (length pass) (Z.to_nat (loader_batch_size ld)) pass.

(** [len(loader)]: the number of batches of one pass. *)
Definition len (ld : DataLoader) : Z :=
  ((Z.of_nat (length (dataset ld)) + loader_batch_size ld - 1)
   / loader_batch_size ld)%Z.

(** [next(it)]; [None] is [StopIteration]. *)
Definition next (it : list (list A)) : option (list A * list (list A)) :=
  match it with
  | [] => None
  | b :: it' => Some (b, it')
  end.

(** ** [Trainer] *)

(** [iters_made] counts the iterators created from [train_loader] so far: it
    selects the permutation of the next pass. *)
Record Trainer : Type := {
  config : TrainConfig;
  train_loader : DataLoader;
  eval_loader : DataLoader;
  batch_iter : list (list A);
  iters_made : nat
}.

Definition no_shuffle : nat -> list A -> list A := fun _ l => l.

(** [Trainer.__init__], from the two dataset splits and the sampler of the
    training loader. *)
Definition new_trainer (cfg : TrainConfig) (train_ds eval_ds : list A)
    (sampler : nat -> list A -> list A) : result Trainer :=
  tl <- new_shuffled_loader train_ds (batch_size cfg) sampler ;;
  let it := iter tl 0 in
  el <- new_loader eval_ds (batch_size cfg) no_shuffle ;;
  Ok {| config := cfg; train_loader := tl; eval_loader := el;
        batch_iter := it; iters_made := 1 |}.

(** [self.batch_iter = iter(self.train_loader)] *)
Definition reset_batch_iter (t : Trainer) : Trainer :=
  {| config := config t; train_loader := train_loader t;
     eval_loader := eval_loader t;
     batch_iter := iter (train_loader t) (iters_made t);
     iters_made := S (iters_made t) |}.

(** [next(self.batch_iter)] consumes one batch of the stored iterator. *)
Definition set_batch_iter (t : Trainer) (it : list (list A)) : Trainer :=
  {| config := config t; train_loader := train_loader t;
     eval_loader := eval_loader t;
     batch_iter := it; iters_made := iters_made t |}.

(** The handler of [except StopIteration]: a fresh iterator and one [next],
    whose own [StopIteration] is not caught any more. *)
Definition on_stop_iteration (t : Trainer) : result (list A * Trainer) :=
  let t1 := reset_batch_iter t in
  match next (batch_iter t1) with
  | Some (b, it) => Ok (b, set_batch_iter t1 it)
  | None => Raise StopIteration
  end.

(** ** [Trainer.train_loop], lines 68-77: the batch that is fed forward.

    The forward and backward passes that follow act on the external CLIP
    model and optimizer and are not part of this model; faults of the loader's
    worker processes (the [except Exception] arm) are not modelled either. *)
Definition train_loop (t : Trainer) : result (list A * Trainer) :=
  match next (batch_iter t) with
  | Some (images, it) =>
      let t1 := set_batch_iter t it in
      if (Z.of_nat (length images) <? batch_size (config t))%Z then
        let t2 := reset_batch_iter t1 in
        match next (batch_iter t2) with
        | Some (images', it') => Ok (images', set_batch_iter t2 it')
        | None => on_stop_iteration t2
        end
      else Ok (images, t1)
  | None => on_stop_iteration t
  end.

(** [n] successive calls, with the batches they fed forward. *)
Fixpoint train_loops (n : nat) (t : Trainer)
  : result (list (list A) * Trainer) :=
  match n with
  | O => Ok ([], t)
  | S n' =>
      '(b, t1) <- train_loop t ;;
      '(bs, t2) <- train_loops n' t1 ;;
      Ok (b :: bs, t2)
  end.

(** ** [Trainer.evaluate] *)

Definition Qlt_bool (x y : Q) : bool := negb (Qle_bool y x).

(** [torch.max(row)]: index of the first maximal entry. *)
Fixpoint argmax_from (best_i : nat) (best : Q) (i : nat) (row : list Q) : nat :=
  match row with
  | [] => best_i
  | x :: row' =>
      if Qlt_bool best x then argmax_from i x (S i) row'
      else argmax_from best_i best (S i) row'
  end.

Definition argmax (row : list Q) : result nat :=
  match row with
  | [] => Raise IndexError
  | x :: row' => Ok (argmax_from 0 x 1 row')
  end.

(** [_, predict = torch.max(logits_image, dim=-1)] *)
Fixpoint predict_rows (logits_image : list (list Q)) : result (list nat) :=
  match logits_image with
  | [] => Ok []
  | row :: rows =>
      p <- argmax row ;;
      ps <- predict_rows rows ;;
      Ok (p :: ps)
  end.

(** [(predict == torch.arange(n)).sum()], counting from label [i]. *)
Fixpoint correct_sum (i : nat) (predict : list nat) : Z :=
  match predict with
  | [] => 0
  | p :: ps => ((if Nat.eqb p i then 1 else 0) + correct_sum (S i) ps)%Z
  end.

(** [correct.sum().item() / correct.size(0)] *)
Definition batch_accuracy (logits_image : list (list Q)) : result Q :=
  predict <- predict_rows logits_image ;;
  let size0 := Z.of_nat (length predict) in
  if (size0 =? 0)%Z then Raise ZeroDivisionError
  else Ok (inject_Z (correct_sum 0 predict) / inject_Z size0).

(** What [evaluate] reads of [model((images, texts))]: [logits_image] and
    [loss.item()]. *)
Definition Model : Type := list A -> list (list Q) * Q.

(** The body of [for iteration in range(length - 1)], [n] rounds of it. *)
Fixpoint evaluate_batches (n : nat) (model : Model) (batch_iter : list (list A))
    (total_loss sum_accuracy : Q) : result (Q * Q) :=
  match n with
  | O => Ok (total_loss, sum_accuracy)
  | S n' =>
      match next batch_iter with
      | None => Raise StopIteration
      | Some (images, batch_iter') =>
          let '(logits_image, loss) := model images in
          accuracy <- batch_accuracy logits_image ;;
          evaluate_batches n' model batch_iter'
            (total_loss + loss) (sum_accuracy + accuracy)
      end
  end.

Definition evaluate (t : Trainer) (model : Model) : result (Q * Q) :=
  let batch_iter := iter (eval_loader t) 0 in
  let length := len (eval_loader t) in
  '(total_loss, sum_accuracy) <-
     evaluate_batches (Z.to_nat (length - 1)) model batch_iter 0 0 ;;
  if (length =? 0)%Z then Raise ZeroDivisionError
  else Ok (total_loss / inject_Z length, sum_accuracy / inject_Z length).

(** ** [Trainer.train], lines 153-187 *)

(** A file [out/clip_{iteration}.pt] holding [eval_accuracy] (and the model,
    which is external). *)
Record Checkpoint : Type := {
  ckpt_iteration : Z;
  eval_accuracy : Q
}.

Record TrainState : Type := {
  trainer : Trainer;
  saved : list Checkpoint
}.

(** [best_val_accuracy = 1e-9]; the loop never assigns it again. *)
Definition best_val_accuracy : Q := 1 # 1000000000.

Section TrainLoop.

(** The outcome of [self.evaluate(cmodel)] when it is called in a given
    iteration: it depends on the weights reached by then, which are external
    to this model. *)
Variable evaluation : Z -> result (Q * Q).

(** [a % b] on [int]. *)
Definition py_mod (a b : Z) : result Z :=
  if (b =? 0)%Z then Raise ZeroDivisionError else Ok (a mod b)%Z.

(** One round of [for iteration in range(self.config.max_iters)]. *)
Definition train_iteration (st : TrainState) (iteration : Z)
  : result TrainState :=
  let cfg := config (trainer st) in
  _ <- get_lr cfg iteration ;;
  '(_, t1) <- train_loop (trainer st) ;;
  (* the logging branch only prints *)
  _ <- py_mod iteration (log_iters cfg) ;;
  m <- py_mod iteration (eval_iters cfg) ;;
  if (m =? 0)%Z && (iteration >? 0)%Z then
    '(avg_loss, avg_accuracy) <- evaluation iteration ;;
    if Qlt_bool best_val_accuracy avg_accuracy then
      Ok {| trainer := t1;
            saved := saved st ++ [{| ckpt_iteration := iteration;
                                     eval_accuracy := avg_accuracy |}] |}
    else Ok {| trainer := t1; saved := saved st |}
  else Ok {| trainer := t1; saved := saved st |}.

Fixpoint train_from (n : nat) (iteration : Z) (st : TrainState)
  : result TrainState :=
  match n with
  | O => Ok st
  | S n' =>
      st' <- train_iteration st iteration ;;
      train_from n' (iteration + 1) st'
  end.

Definition train (t : Trainer) : result TrainState :=
  train_from (Z.to_nat (max_iters (config t))) 0
    {| trainer := t; saved := [] |}.

End TrainLoop.

End Loader.

Arguments DataLoader A : clear implicits.
Arguments Trainer A : clear implicits.
Arguments TrainState A : clear implicits.

(** ** The checkpoint policy in the specification's words

    "Maintains [best_accuracy] ... After each evaluation, if the new average
    accuracy is strictly greater, persist a checkpoint ... and update
    [best_accuracy]."  The result tells, for each evaluation, whether a
    checkpoint is written. *)
Fixpoint spec_checkpoint_policy (best_accuracy : Q) (accuracies : list Q)
  : list bool :=
  match accuracies with
  | [] => []
  | a :: rest =>
      if Qlt_bool best_accuracy a then true :: spec_checkpoint_policy a rest
      else false :: spec_checkpoint_policy best_accuracy rest
  end.

End Train.

(** * CLIP/train.py: the warmup ramp in binary64 *)

Module TrainFloat.

Import Floats.

(** [float(i)] for an [int]: the nearest double, ties to even;
    [OverflowError] when that is not finite. *)
Definition float_of_int (i : Z) : result float :=
  let f := SF2Prim (binary_normalize prec emax i 0 false) in
  if is_infinity f then Raise OverflowError else Ok f.

(** Line 98, [config.lr * iteration / config.warmup_iters]: what [get_lr]
    returns when [iteration < warmup_iters]. *)
Definition warmup_lr (lr : float) (iteration warmup_iters : Z)
  : result float :=
  fi <- float_of_int iteration ;;
  let scaled := (lr * fi)%float in
  fw <- float_of_int warmup_iters ;;
  if (fw =? 0)%float then Raise ZeroDivisionError
  else Ok (scaled / fw)%float.

(** The default [lr = 1e-4] as a double. *)
Definition default_lr : float := 0x1.a36e2eb1c432dp-14%float.

(** The smallest positive double, [5e-324]. *)
Definition tiny_lr : float := 0x1p-1074%float.

(** Whether the ramp strictly increases over the [n] steps from
    iteration [i] on. *)
Fixpoint ramp_increases (lr : float) (warmup_iters : Z) (n : nat) (i : Z)
  : bool :=
  match n with
  | O => true
  | S n' =>
      match warmup_lr lr i warmup_iters, warmup_lr lr (i + 1) warmup_iters with
      | Ok a, Ok b => (a <? b)%float && ramp_increases lr warmup_iters n' (i + 1)
      | _, _ => false
      end
  end.

End TrainFloat.

(** * tinymm/ALBEF/model.py *)

Module ALBEF.

Local Open Scope R_scope.

(** ** Tensors

    A tensor is its shape and its entries; entries outside the shape carry
    no meaning. *)

Record Matrix : Type := {
  rows : nat;
  cols : nat;
  at2 : nat -> nat -> R
}.

Record Tensor3 : Type := {
  dim0 : nat;
  dim1 : nat;
  dim2 : nat;
  at3 : nat -> nat -> nat -> R
}.

Record Tensor4 : Type := {
  shape4 : nat * nat * nat * nat;
  at4 : nat -> nat -> nat -> nat -> R
}.

(** Integer tensors: token ids and class labels. *)
Record IntVector : Type := {
  ilen : nat;
  iat : nat -> Z
}.

Record IntMatrix : Type := {
  irows : nat;
  icols : nat;
  iat2 : nat -> nat -> Z
}.

(** A 0-dimensional float tensor.  [NaN] is what a mean over no element
    yields. *)
Inductive scalar : Type :=
| Finite (x : R)
| NaN.

Definition scalar_add (a b : scalar) : scalar :=
  match a, b with
  | Finite x, Finite y => Finite (x + y)
  | _, _ => NaN
  end.

Definition scalar_div (a : scalar) (d : R) : scalar :=
  match a with
  | Finite x => Finite (x / d)
  | NaN => NaN
  end.

(** Sum of [f] over a list of indices. *)
Definition Rsum (l : list nat) (f : nat -> R) : R :=
  fold_right Rplus 0 (map f l).

(** ** Tensor operations used by [forward] *)

(** [F.normalize(x, dim=-1)]: each row divided by [max(norm, eps)].  The
    entries are real numbers here: the rounding of float32 is not modelled,
    so that a normalized row has norm 1 only up to rounding in the program,
    and nothing below relies on that norm. *)
Definition normalize_eps : R := / 1000000000000.

Definition normalize (x : Matrix) : Matrix :=
  {| rows := rows x; cols := cols x;
     at2 := fun i j =>
       at2 x i j
       / Rmax (sqrt (Rsum (seq 0 (cols x)) (fun k => at2 x i k * at2 x i k)))
              normalize_eps |}.

(** [c * x] *)
Definition scale (c : R) (x : Matrix) : Matrix :=
  {| rows := rows x; cols := cols x; at2 := fun i j => c * at2 x i j |}.

(** [x.T] *)
Definition transpose (x : Matrix) : Matrix :=
  {| rows := cols x; cols := rows x; at2 := fun i j => at2 x j i |}.

(** [x @ y] *)
Definition matmul (x y : Matrix) : result Matrix :=
  if Nat.eqb (cols x) (rows y) then
    Ok {| rows := rows x; cols := cols y;
          at2 := fun i j =>
            Rsum (seq 0 (cols x)) (fun k => at2 x i k * at2 y k j) |}
  else Raise RuntimeError.

(** [torch.arange(n)] *)
Definition arange (n : nat) : IntVector :=
  {| ilen := n; iat := fun i => Z.of_nat i |}.

(** [torch.cat((x, y), dim=1)] *)
Definition cat1 (x y : Tensor3) : result Tensor3 :=
  if Nat.eqb (dim0 x) (dim0 y) && Nat.eqb (dim2 x) (dim2 y) then
    Ok {| dim0 := dim0 x; dim1 := dim1 x + dim1 y; dim2 := dim2 x;
          at3 := fun i j k =>
            if Nat.ltb j (dim1 x) then at3 x i j k
            else at3 y i (j - dim1 x) k |}
  else Raise RuntimeError.

(** [x[:, -n:, :]]; the slice [-0:] is the whole axis. *)
Definition last_positions (x : Tensor3) (n : nat) : Tensor3 :=
  let start := match n with O => O | S _ => (dim1 x - n)%nat end in
  {| dim0 := dim0 x; dim1 := (dim1 x - start)%nat; dim2 := dim2 x;
     at3 := fun i j k => at3 x i (start + j) k |}.

(** [x.view(-1, x.size(-1))] *)
Definition view2 (x : Tensor3) : result Matrix :=
  if Nat.eqb (dim2 x) 0 then Raise RuntimeError
  else Ok {| rows := dim0 x * dim1 x; cols := dim2 x;
             at2 := fun p v => at3 x (p / dim1 x) (p mod dim1 x) v |}.

(** [t.view(-1)] *)
Definition view1 (t : IntMatrix) : IntVector :=
  {| ilen := irows t * icols t;
     iat := fun p => iat2 t (p / icols t) (p mod icols t) |}.

(** ** [F.cross_entropy(input, target, ignore_index)], mean reduction *)

Definition target_ok (classes : nat) (ignore_index t : Z) : bool :=
  (t =? ignore_index)%Z || ((0 <=? t)%Z && (t <? Z.of_nat classes)%Z).

(** Negative log-likelihood of class [t] in row [i]:
    [-log_softmax(input[i])[t]]. *)
Definition nll (input : Matrix) (i : nat) (t : Z) : R :=
  ln (Rsum (seq 0 (cols input)) (fun j => exp (at2 input i j)))
  - at2 input i (Z.to_nat t).

(** The rows that count: those whose target is not [ignore_index]. *)
Definition kept_rows (target : IntVector) (ignore_index : Z) (n : nat)
  : list nat :=
  filter (fun i => negb (iat target i =? ignore_index)%Z) (seq 0 n).

Definition cross_entropy (input : Matrix) (target : IntVector)
    (ignore_index : Z) : result scalar :=
  if negb (Nat.eqb (rows input) (ilen target)) then Raise ValueError
  else if negb (forallb (fun i => target_ok (cols input) ignore_index
                                    (iat target i))
                        (seq 0 (rows input)))
  then Raise IndexError
  else
    let kept := kept_rows target ignore_index (rows input) in
    match kept with
    | [] => Ok NaN
    | _ :: _ =>
        Ok (Finite (Rsum kept (fun i => nll input i (iat target i))
                    / INR (length kept)))
    end.

(** The default [ignore_index] of [F.cross_entropy]. *)
Definition default_ignore_index : Z := (-100)%Z.

(** ** The model *)

(** The sub-modules are external: encoders return the projected embedding of
    the last token and the full feature sequence. *)
Record Model : Type := {
  img_encoder : Tensor4 -> Matrix * Tensor3;
  txt_encoder : IntMatrix -> Matrix * Tensor3;
  logit_scale : R;
  multimodal_encoder : list (Tensor3 -> Tensor3);
  lm_head : Tensor3 -> Tensor3
}.

(** The tuple [forward] returns. *)
Record Output : Type := {
  out_logits_per_image : Matrix;
  out_logits_per_text : Matrix;
  out_labels : IntVector;
  out_logits : Tensor3;
  out_targets : IntMatrix;
  out_itc_loss : scalar;
  out_mlm_loss : scalar;
  out_total_loss : scalar
}.

(** Lines 77-84: the contrastive loss of two batches of embeddings. *)
Definition contrastive (logit_scale : R) (img_embds txt_embds : Matrix)
  : result (Matrix * Matrix * IntVector * scalar) :=
  logits_per_image <-
    matmul (scale (exp logit_scale) img_embds) (transpose txt_embds) ;;
  let logits_per_text := transpose logits_per_image in
  let labels := arange (rows logits_per_image) in
  ce_image <- cross_entropy logits_per_image labels default_ignore_index ;;
  ce_text <- cross_entropy logits_per_text labels default_ignore_index ;;
  let itc_loss := scalar_div (scalar_add ce_image ce_text) 2 in
  Ok (logits_per_image, logits_per_text, labels, itc_loss).

(** Lines 86-99: fusion, token logits and the masked-token loss. *)
Definition generative (m : Model) (img_feature txt_feature : Tensor3)
    (text_seq_len : nat) (targets : IntMatrix) : result (Tensor3 * scalar) :=
  out <- cat1 img_feature txt_feature ;;
  let out := fold_left (fun out block => block out) (multimodal_encoder m) out in
  let logits := lm_head m (last_positions out text_seq_len) in
  input <- view2 logits ;;
  mlm_loss <- cross_entropy input (view1 targets) (-1)%Z ;;
  Ok (logits, mlm_loss).

Definition forward (m : Model) (inp : Tensor4 * IntMatrix * IntMatrix)
  : result Output :=
  let '(images, texts, targets) := inp in
  let text_seq_len := icols texts in
  (* ITC loss *)
  let '(img_embds, img_feature) := img_encoder m images in
  let '(txt_embds, txt_feature) := txt_encoder m texts in
  let img_embds := normalize img_embds in
  let txt_embds := normalize txt_embds in
  '(logits_per_image, logits_per_text, labels, itc_loss) <-
     contrastive (logit_scale m) img_embds txt_embds ;;
  (* MLM loss *)
  '(logits, mlm_loss) <-
     generative m img_feature txt_feature text_seq_len targets ;;
  Ok {| out_logits_per_image := logits_per_image;
        out_logits_per_text := logits_per_text;
        out_labels := labels;
        out_logits := logits;
        out_targets := targets;
        out_itc_loss := itc_loss;
        out_mlm_loss := mlm_loss;
        out_total_loss := scalar_add itc_loss mlm_loss |}.

(** ** The contrastive loss in the specification's words

    "similarity = temperature_scale * I * T^t"; "contrastive_loss = average of
    cross-entropy(similarity, labels) computed row-wise and column-wise (using
    the transpose)", with the identity labels. *)
Definition spec_similarity (logit_scale : R) (I T : Matrix) : result Matrix :=
  IT <- matmul I (transpose T) ;;
  Ok (scale (exp logit_scale) IT).

Definition spec_contrastive_loss (logit_scale : R) (I T : Matrix)
  : result scalar :=
  similarity <- spec_similarity logit_scale I T ;;
  let labels := arange (rows similarity) in
  row_wise <- cross_entropy similarity labels default_ignore_index ;;
  column_wise <-
    cross_entropy (transpose similarity) labels default_ignore_index ;;
  Ok (scalar_div (scalar_add row_wise column_wise) 2).

End ALBEF.

(** * Invariants and concrete inputs used below *)

Module Inputs.

Import Train.

(** What every state of the batch source satisfies when the dataset holds at
    least one full batch: each pass starts with a full batch, and no pending
    batch is larger than the batch size. *)
Definition full_passes {A : Type} (t : Trainer A) : Prop :=
  (0 < batch_size (config t))%Z
  /\ loader_batch_size (train_loader t) = batch_size (config t)
  /\ (forall k,
        (batch_size (config t)
         <= Z.of_nat (length (shuffle (train_loader t) k
                                (dataset (train_loader t)))))%Z)
  /\ Forall (fun b => (Z.of_nat (length b) <= batch_size (config t))%Z)
            (batch_iter t).

(** A schedule whose warmup horizon lies beyond its decay horizon. *)
Definition misordered_config : TrainConfig := {|
  eval_ratio := 1 # 10; batch_size := 128; num_workers := 4; resume := false;
  lr := (1 / 10000)%R; min_lr := (1 / 1000000)%R; grad_clip := 100%R;
  seq_len := 64; log_iters := 2000; eval_iters := 10000;
  warmup_iters := 10; lr_decay_iters := 5; max_iters := 1000000
|}.

(** A schedule with an empty decay window. *)
Definition empty_window_config : TrainConfig := {|
  eval_ratio := 1 # 10; batch_size := 128; num_workers := 4; resume := false;
  lr := (1 / 10000)%R; min_lr := (1 / 1000000)%R; grad_clip := 100%R;
  seq_len := 64; log_iters := 2000; eval_iters := 10000;
  warmup_iters := 0; lr_decay_iters := 0; max_iters := 1000000
|}.

(** The defaults with another batch size and iteration budget. *)
Definition small_config (bs iters : Z) : TrainConfig := {|
  eval_ratio := 1 # 10; batch_size := bs; num_workers := 4; resume := false;
  lr := (1 / 10000)%R; min_lr := (1 / 1000000)%R; grad_clip := 100%R;
  seq_len := 64; log_iters := 2000; eval_iters := 10000;
  warmup_iters := 2000; lr_decay_iters := 128000; max_iters := iters
|}.

(** A sampler that reverses the dataset on odd passes. *)
Definition alternating (k : nat) (l : list nat) : list nat :=
  if Nat.even k then l else rev l.

(** The accuracies of five successive evaluations, and an evaluation
    outcome that reports them at iterations 10000, 20000, ..., 50000 (the
    default evaluation cadence), with an average loss of 1. *)
Definition accuracy_sequence : list Q :=
  [40 # 100; 40 # 100; 55 # 100; 50 # 100; 60 # 100].

Definition evaluation_at (iteration : Z) : result (Q * Q) :=
  Ok (1, nth (Z.to_nat (iteration / 10000 - 1)) accuracy_sequence 0).

(** The checkpoints of a whole run, from the construction of the trainer. *)
Definition run_checkpoints (cfg : TrainConfig) (train_ds eval_ds : list nat)
    (evaluation : Z -> result (Q * Q)) : result (list Checkpoint) :=
  t <- new_trainer cfg train_ds eval_ds no_shuffle ;;
  st <- train evaluation t ;;
  Ok (saved st).

(** A model that is right on both samples of a batch of two, with loss 1. *)
Definition perfect_model : Model (A := nat) :=
  fun _ => ([[1; 0]; [0; 1]], 1).

(** The totals [evaluate] has accumulated when its loop ends. *)
Definition evaluate_totals (t : Trainer nat) (model : Model (A := nat))
  : result (Q * Q) :=
  evaluate_batches (Z.to_nat (len (eval_loader t) - 1)) model
    (iter (eval_loader t) 0) 0 0.

End Inputs.

(** Concrete models and batches for [ALBEF.forward]. *)

Module ALBEFInputs.

Import ALBEF.

Local Open Scope R_scope.

Definition images0 : Tensor4 :=
  {| shape4 := (2, 3, 4, 4)%nat; at4 := fun _ _ _ _ => 0 |}.

Definition texts0 : IntMatrix :=
  {| irows := 2; icols := 2; iat2 := fun i j => Z.of_nat (i + j) |}.

(** Targets of a batch of two texts of two tokens; position (0, 0) holds
    the sentinel. *)
Definition targets0 : IntMatrix :=
  {| irows := 2; icols := 2;
     iat2 := fun i j => match i, j with
                        | O, O => (-1)%Z
                        | _, _ => 1%Z
                        end |}.

(** [n] embeddings of width 2. *)
Definition embds (n : nat) : Matrix :=
  {| rows := n; cols := 2;
     at2 := fun i j => if Nat.eqb i j then 3 else 4 |}.

(** Feature sequences of [n] samples, [len] positions and width 1. *)
Definition features (n len : nat) : Tensor3 :=
  {| dim0 := n; dim1 := len; dim2 := 1; at3 := fun _ _ _ => 1 |}.

(** A token head over a vocabulary of 3 whose logits at position (0, 0)
    are [c]. *)
Definition head (c : R) (x : Tensor3) : Tensor3 :=
  {| dim0 := dim0 x; dim1 := dim1 x; dim2 := 3;
     at3 := fun b l v => match b, l with
                         | O, O => c
                         | _, _ => at3 x b l 0 + INR v
                         end |}.

(** A model for batches of [n] pairs. *)
Definition model0 (n : nat) (c : R) : Model :=
  {| img_encoder := fun _ => (embds n, features n 1);
     txt_encoder := fun _ => (embds n, features n 2);
     logit_scale := ln (100 / 7);
     multimodal_encoder := [fun x => x];
     lm_head := head c |}.

(** A batch of one pair. *)
Definition images1 : Tensor4 :=
  {| shape4 := (1, 3, 4, 4)%nat; at4 := fun _ _ _ _ => 0 |}.

Definition texts1 : IntMatrix :=
  {| irows := 1; icols := 2; iat2 := fun i j => Z.of_nat j |}.

Definition targets1 : IntMatrix :=
  {| irows := 1; icols := 2; iat2 := fun i j => Z.of_nat j |}.

End ALBEFInputs.

(** Invariants and inputs for the further properties of [CLIP/train.py]. *)

Module TrainMoreInputs.

Import Train Inputs.

(** The size of the batches a non-empty training split yields: the batch
    size, or the whole split when it is smaller. *)
Definition pass_size {A : Type} (t : Trainer A) : Z :=
  Z.min (batch_size (config t))
        (Z.of_nat (length (dataset (train_loader t)))).

(** The invariant of the batch source over a non-empty training split whose
    passes are permutations of it: pending batches are no larger than
    [pass_size] and hold samples of the split, distinct ones when the split
    holds none twice. *)
Definition steady_source {A : Type} (t : Trainer A) : Prop :=
  (0 < batch_size (config t))%Z
  /\ loader_batch_size (train_loader t) = batch_size (config t)
  /\ dataset (train_loader t) <> []
  /\ (forall k, Permutation (shuffle (train_loader t) k
                               (dataset (train_loader t)))
                            (dataset (train_loader t)))
  /\ Forall (fun b => (Z.of_nat (length b) <= pass_size t)%Z
                      /\ incl b (dataset (train_loader t))
                      /\ (NoDup (dataset (train_loader t)) -> NoDup b))
            (batch_iter t).

(** Row [row] has its only maximum at column [i]. *)
Definition peaks_at (row : list Q) (i : nat) : Prop :=
  (i < length row)%nat
  /\ forall j, (j < length row)%nat -> j <> i -> nth j row 0 < nth i row 0.

(** Row number [k] of [rows] peaks at column [start + k]. *)
Definition diagonal_from (start : nat) (rows : list (list Q)) : Prop :=
  forall k, (k < length rows)%nat -> peaks_at (nth k rows []) (start + k).

(** A model that differs from [perfect_model] on the batch [[2; 3]] only. *)
Definition last_batch_model : Model (A := nat) :=
  fun b => match b with
           | [2; 3]%nat => ([[0; 1]; [1; 0]], 5)
           | _ => ([[1; 0]; [0; 1]], 1)
           end.

(** The checkpoints iteration [i] adds, and those of [n] iterations from
    [i] on, for a run that completes. *)
Definition new_checkpoints (cfg : TrainConfig)
    (evaluation : Z -> result (Q * Q)) (i : Z) : list Checkpoint :=
  if ((i mod eval_iters cfg =? 0) && (i >? 0))%Z then
    match evaluation i with
    | Ok (_, avg_accuracy) =>
        if Qlt_bool best_val_accuracy avg_accuracy
        then [{| ckpt_iteration := i; eval_accuracy := avg_accuracy |}]
        else []
    | Raise _ => []
    end
  else [].

Fixpoint checkpoints_from (cfg : TrainConfig)
    (evaluation : Z -> result (Q * Q)) (n : nat) (i : Z) : list Checkpoint :=
  match n with
  | O => []
  | S n' => new_checkpoints cfg evaluation i
            ++ checkpoints_from cfg evaluation n' (i + 1)
  end.

(** A short run: batches of two, logging and evaluation at every
    iteration, three iterations. *)
Definition quick_config (log evals : Z) : TrainConfig := {|
  eval_ratio := 1 # 10; batch_size := 2; num_workers := 4; resume := false;
  lr := (1 / 10000)%R; min_lr := (1 / 1000000)%R; grad_clip := 100%R;
  seq_len := 64; log_iters := log; eval_iters := evals;
  warmup_iters := 2000; lr_decay_iters := 128000; max_iters := 3
|}.

(** Evaluations that report the accuracy 0.40 at iteration 1 and 0 at every
    other iteration. *)
Definition quick_evaluation (iteration : Z) : result (Q * Q) :=
  Ok (1, if (iteration =? 1)%Z then 40 # 100 else 0).

(** Evaluations that report the accuracy 0.40 at every iteration. *)
Definition steady_evaluation (iteration : Z) : result (Q * Q) :=
  Ok (1, 40 # 100).


End TrainMoreInputs.

(** * tinymm/ALBEF/model.py: the encoders *)

Module Encoders.

Import ALBEF.

Local Open Scope R_scope.

(** [nn.Linear(in_features, out_features)]: [y = x @ weight.T + bias], with
    [weight] of shape [(out_features, in_features)]. *)
Record Linear : Type := {
  in_features : nat;
  out_features : nat;
  weight : nat -> nat -> R;
  bias : nat -> R
}.

Definition linear (l : Linear) (x : Matrix) : result Matrix :=
  if Nat.eqb (cols x) (in_features l) then
    Ok {| rows := rows x; cols := out_features l;
          at2 := fun i o =>
            Rsum (seq 0 (in_features l)) (fun k => at2 x i k * weight l o k)
            + bias l o |}
  else Raise RuntimeError.

(** [out[:, -1, :]] *)
Definition last_token (out : Tensor3) : result Matrix :=
  if Nat.eqb (dim1 out) 0 then Raise IndexError
  else Ok {| rows := dim0 out; cols := dim2 out;
             at2 := fun i k => at3 out i (dim1 out - 1) k |}.

(** [ImageEncoder]: the backbone [encoder] is external. *)
Record ImageEncoder : Type := {
  img_backbone : Tensor4 -> Tensor3;
  img_proj : Linear
}.

(** [ImageEncoder.forward] *)
Definition image_encoder_forward (e : ImageEncoder) (inp : Tensor4)
  : result (Matrix * Tensor3) :=
  let out := img_backbone e inp in
  last <- last_token out ;;
  embd <- linear (img_proj e) last ;;
  Ok (embd, out).

(** [TextEncoder]: the backbone [encoder] (a GPT) is external. *)
Record TextEncoder : Type := {
  txt_backbone : IntMatrix -> Tensor3;
  txt_proj : Linear
}.

(** [TextEncoder.forward] *)
Definition text_encoder_forward (e : TextEncoder) (inp : IntMatrix)
  : result (Matrix * Tensor3) :=
  let out := txt_backbone e inp in
  last <- last_token out ;;
  embd <- linear (txt_proj e) last ;;
  Ok (embd, out).

End Encoders.

(** Predicates and inputs for the further properties of [model.py]. *)

Module ALBEFMoreInputs.

Import ALBEF ALBEFInputs Encoders.

Local Open Scope R_scope.

(** A loss that is a number is not negative. *)
Definition nonneg (s : scalar) : Prop :=
  match s with
  | Finite x => 0 <= x
  | NaN => True
  end.

(** Targets that are all the sentinel. *)
Definition masked_targets : IntMatrix :=
  {| irows := 2; icols := 2; iat2 := fun _ _ => (-1)%Z |}.


(** [n] embeddings of width 3. *)
Definition wide (n : nat) : Matrix :=
  {| rows := n; cols := 3; at2 := fun i k => INR (i + k) |}.

(** A projection from width 1 to width 2. *)
Definition proj12 : Linear :=
  {| in_features := 1; out_features := 2;
     weight := fun o _ => INR o + 1; bias := fun o => INR o |}.

(** Backbones whose features differ before the last position only. *)
Definition backbone (c : R) (inp : Tensor4) : Tensor3 :=
  {| dim0 := 2; dim1 := 3; dim2 := 1;
     at3 := fun i j _ => match j with
                         | 2%nat => INR i
                         | _ => c
                         end |}.

Definition text_backbone (c : R) (inp : IntMatrix) : Tensor3 :=
  {| dim0 := irows inp; dim1 := icols inp; dim2 := 1;
     at3 := fun i j _ => if Nat.eqb (S j) (icols inp)
                         then IZR (iat2 inp i j) else c |}.

(** A backbone that returns [len] positions of width [width]. *)
Definition shaped_backbone (len width : nat) (inp : Tensor4) : Tensor3 :=
  {| dim0 := 2; dim1 := len; dim2 := width; at3 := fun _ _ _ => 1 |}.

Definition image_encoder0 (c : R) : ImageEncoder :=
  {| img_backbone := backbone c; img_proj := proj12 |}.

Definition text_encoder0 (c : R) : TextEncoder :=
  {| txt_backbone := text_backbone c; txt_proj := proj12 |}.

Definition shaped_encoder (len width : nat) : ImageEncoder :=
  {| img_backbone := shaped_backbone len width; img_proj := proj12 |}.

End ALBEFMoreInputs.

(** * Properties of CLIP/train.py *)

Module TrainProofs.

Import Train Inputs.

(** ** The learning-rate schedule *)

(** A run of [ramp_increases] covers every step of its range. *)
Lemma ramp_increases_step (lr : PrimFloat.float) (w : Z) (n : nat) (i0 i : Z) :
  TrainFloat.ramp_increases lr w n i0 = true ->
  (i0 <= i < i0 + Z.of_nat n)%Z ->
  exists a b,
    TrainFloat.warmup_lr lr i w = Ok a
    /\ TrainFloat.warmup_lr lr (i + 1) w = Ok b
    /\ PrimFloat.ltb a b = true.
Proof.
  revert i0. induction n as [|n IH]; intros i0 H Hi; [lia|].
  simpl in H.
  destruct (TrainFloat.warmup_lr lr i0 w) as [a|] eqn:Ea; [|discriminate].
  destruct (TrainFloat.warmup_lr lr (i0 + 1) w) as [b|] eqn:Eb;
    [|discriminate].
  apply andb_true_iff in H. destruct H as [Hab Hrest].
  destruct (Z.eq_dec i i0) as [->|Hne].
  - exists a, b. repeat split; assumption.
  - apply (IH (i0 + 1)%Z); [exact Hrest|lia].
Qed.

(** [float_overflows] is the comparison with the midpoint between the
    largest double and [2^1024]. *)
Lemma float_overflows_spec (i : Z) :
  float_overflows i = true <-> (2 ^ 1024 - 2 ^ 970 <= Z.abs i)%Z.
Proof.
  unfold float_overflows.
  rewrite Z.leb_le, Z.shiftr_div_pow2 by lia.
  assert (Hm : (2 ^ 1024 - 2 ^ 970 = 2 ^ 970 * (2 ^ 54 - 1))%Z)
    by (vm_compute; reflexivity).
  assert (Hp : (0 < 2 ^ 970)%Z) by (vm_compute; reflexivity).
  rewrite Hm.
  generalize dependent (2 ^ 970)%Z. intros b _ Hb.
  generalize (2 ^ 54 - 1)%Z. intros q.
  split; intros H.
  - pose proof (Z.mul_div_le (Z.abs i) b Hb). nia.
  - apply Z.div_le_lower_bound; assumption.
Qed.

Lemma float_overflows_small (i : Z) :
  (Z.abs i < 2 ^ 1023)%Z -> float_overflows i = false.
Proof.
  intros H. destruct (float_overflows i) eqn:E; [|reflexivity].
  apply float_overflows_spec in E.
  assert (Hlt : (2 ^ 1023 < 2 ^ 1024 - 2 ^ 970)%Z) by (vm_compute; reflexivity).
  revert H E Hlt.
  generalize (2 ^ 1023)%Z (2 ^ 1024 - 2 ^ 970)%Z. intros a b. lia.
Qed.

(** The conversion of [TrainFloat] raises from the same integer on. *)
Lemma float_of_int_overflows :
  TrainFloat.float_of_int (2 ^ 1024 - 2 ^ 970) = Raise OverflowError
  /\ float_overflows (2 ^ 1024 - 2 ^ 970) = true
  /\ (exists f, TrainFloat.float_of_int (2 ^ 1024 - 2 ^ 970 - 1) = Ok f)
  /\ float_overflows (2 ^ 1024 - 2 ^ 970 - 1) = false.
Proof.
  split; [vm_compute; reflexivity|]. split; [vm_compute; reflexivity|].
  split; [eexists; vm_compute; reflexivity|vm_compute; reflexivity].
Qed.

Lemma default_ramp_step (i : Z) :
  (0 <= i < 1999)%Z ->
  exists a b,
    TrainFloat.warmup_lr TrainFloat.default_lr i 2000 = Ok a
    /\ TrainFloat.warmup_lr TrainFloat.default_lr (i + 1) 2000 = Ok b
    /\ PrimFloat.ltb a b = true.
Proof.
  intros Hi.
  apply (ramp_increases_step TrainFloat.default_lr 2000 1999 0);
    [vm_compute; reflexivity|lia].
Qed.

Section Schedule.

Variable cfg : TrainConfig.

Local Open Scope Z_scope.

Lemma get_lr_in_warmup (i : Z) :
  i < warmup_iters cfg -> warmup_iters cfg <> 0 ->
  Z.abs i < 2 ^ 1023 -> Z.abs (warmup_iters cfg) < 2 ^ 1023 ->
  get_lr cfg i = Ok (lr cfg * IZR i / IZR (warmup_iters cfg))%R.
Proof.
  intros Hi Hw Hbi Hbw. unfold get_lr.
  apply Z.ltb_lt in Hi. rewrite Hi.
  rewrite !float_overflows_small by assumption.
  apply Z.eqb_neq in Hw. rewrite Hw. reflexivity.
Qed.

Lemma get_lr_past_decay (i : Z) :
  warmup_iters cfg <= i -> lr_decay_iters cfg < i ->
  get_lr cfg i = Ok (min_lr cfg).
Proof.
  intros Hw Hd. unfold get_lr.
  destruct (Z.ltb_spec i (warmup_iters cfg)) as [H|_]; [lia|].
  destruct (Z.gtb_spec i (lr_decay_iters cfg)) as [_|H]; [reflexivity|lia].
Qed.

(** The decay fraction of an iteration inside the decay window. *)
Lemma decay_ratio_bounds (i : Z) :
  warmup_iters cfg < lr_decay_iters cfg ->
  warmup_iters cfg <= i <= lr_decay_iters cfg ->
  (0 <= decay_ratio cfg i <= 1)%Q.
Proof.
  intros Hwd Hi. unfold decay_ratio.
  remember (i - warmup_iters cfg) as a eqn:Ea.
  remember (lr_decay_iters cfg - warmup_iters cfg) as b eqn:Eb.
  assert (Ha : 0 <= a <= b) by lia.
  assert (Hb : 0 < b) by lia.
  destruct b as [|p|p]; try lia.
  unfold Qdiv, Qinv, Qmult, Qle, inject_Z; simpl.
  split; nia.
Qed.

Lemma get_lr_in_window (i : Z) :
  warmup_iters cfg < lr_decay_iters cfg ->
  warmup_iters cfg <= i <= lr_decay_iters cfg ->
  get_lr cfg i =
  Ok (min_lr cfg + coeff (decay_ratio cfg i) * (lr cfg - min_lr cfg))%R.
Proof.
  intros Hwd Hi. unfold get_lr.
  destruct (Z.ltb_spec i (warmup_iters cfg)) as [H|_]; [lia|].
  destruct (Z.gtb_spec i (lr_decay_iters cfg)) as [H|_]; [lia|].
  destruct (Z.eqb_spec (lr_decay_iters cfg - warmup_iters cfg) 0) as [H|_];
    [lia|].
  destruct (decay_ratio_bounds i Hwd Hi) as [H0 H1].
  apply Qle_bool_iff in H0. apply Qle_bool_iff in H1.
  cbv zeta. rewrite H0, H1. reflexivity.
Qed.

Lemma coeff_bounds (r : Q) : (0 <= coeff r <= 1)%R.
Proof.
  unfold coeff.
  pose proof (COS_bound (PI * Q2R r)) as [Hlo Hhi].
  split; lra.
Qed.

(** C4 (amended): past the warmup, an iteration beyond the decay horizon
    gets exactly [min_lr], and no iteration gets less than [min_lr] (given
    [min_lr <= lr], and a non-empty decay window wherever the cosine branch
    is taken).  Warmup iterations are excluded: their rate ramps up from 0. *)
Theorem get_lr_floor (i : Z) :
  (min_lr cfg <= lr cfg)%R ->
  warmup_iters cfg <= i ->
  lr_decay_iters cfg < i \/ warmup_iters cfg < lr_decay_iters cfg ->
  exists v, get_lr cfg i = Ok v
            /\ (min_lr cfg <= v)%R
            /\ (lr_decay_iters cfg < i -> v = min_lr cfg).
Proof.
  intros Hlr Hw Hcase.
  destruct (Z_lt_le_dec (lr_decay_iters cfg) i) as [Hd|Hd].
  - exists (min_lr cfg). rewrite get_lr_past_decay by assumption.
    split; [reflexivity|]. split; [lra|reflexivity].
  - destruct Hcase as [Hc|Hc]; [lia|].
    eexists. rewrite get_lr_in_window by lia.
    split; [reflexivity|]. split; [|lia].
    pose proof (coeff_bounds (decay_ratio cfg i)) as [Hlo _].
    nra.
Qed.

(** C5 (amended): with a positive base rate and a positive warmup horizon
    that a double can hold, the schedule starts at 0, is [lr * i / warmup_iters]
    on the warmup segment, and never decreases there; in binary64 it strictly
    increases over the whole warmup segment of the default configuration
    ([lr = 1e-4], 2000 warmup iterations). *)
Theorem get_lr_warmup_ramp :
  (0 < lr cfg)%R -> 0 < warmup_iters cfg < 2 ^ 1023 ->
  get_lr cfg 0 = Ok 0%R
  /\ (forall i, 0 <= i < warmup_iters cfg ->
        get_lr cfg i = Ok (lr cfg * IZR i / IZR (warmup_iters cfg))%R)
  /\ (forall i j, 0 <= i -> i < j -> j < warmup_iters cfg ->
        exists vi vj, get_lr cfg i = Ok vi /\ get_lr cfg j = Ok vj
                      /\ (vi <= vj)%R)
  /\ (forall i, 0 <= i < 1999 ->
        exists a b,
          TrainFloat.warmup_lr TrainFloat.default_lr i 2000 = Ok a
          /\ TrainFloat.warmup_lr TrainFloat.default_lr (i + 1) 2000 = Ok b
          /\ PrimFloat.ltb a b = true).
Proof.
  intros Hlr [Hw Hbig].
  assert (HwR : (0 < IZR (warmup_iters cfg))%R) by (apply IZR_lt; exact Hw).
  split; [|split; [|split]].
  - rewrite get_lr_in_warmup by lia. f_equal. unfold Rdiv. ring.
  - intros i Hi. apply get_lr_in_warmup; lia.
  - intros i j Hi Hij Hj.
    exists (lr cfg * IZR i / IZR (warmup_iters cfg))%R,
           (lr cfg * IZR j / IZR (warmup_iters cfg))%R.
    rewrite !get_lr_in_warmup by lia. repeat split.
    unfold Rdiv. apply Rmult_le_compat_r.
    + apply Rlt_le, Rinv_0_lt_compat. exact HwR.
    + apply Rmult_le_compat_l; [lra|]. apply IZR_le. lia.
  - intros i Hi. apply default_ramp_step. exact Hi.
Qed.

(** C6: when the warmup horizon is below the decay horizon, every iteration
    of the decay window has its decay fraction in [0,1]: the assertion
    holds and the scheduler returns the cosine value. *)
Theorem get_lr_decay_window (i : Z) :
  warmup_iters cfg < lr_decay_iters cfg ->
  warmup_iters cfg <= i <= lr_decay_iters cfg ->
  (0 <= decay_ratio cfg i <= 1)%Q
  /\ get_lr cfg i =
     Ok (min_lr cfg + coeff (decay_ratio cfg i) * (lr cfg - min_lr cfg))%R
  /\ get_lr cfg i <> Raise AssertionError.
Proof.
  intros Hwd Hi.
  split; [apply decay_ratio_bounds; assumption|].
  rewrite get_lr_in_window by assumption.
  split; [reflexivity|discriminate].
Qed.

End Schedule.

(** Witness of [get_lr_floor]: the default schedule at iteration 5000. *)
Lemma get_lr_floor_witness :
  exists v, get_lr default_config 5000 = Ok v
            /\ (min_lr default_config <= v)%R
            /\ ((lr_decay_iters default_config < 5000)%Z
                -> v = min_lr default_config).
Proof.
  apply (get_lr_floor default_config 5000); simpl; [lra | lia | right; lia].
Defined.

(** C4 as stated fails: with the default configuration (where
    [lr >= min_lr >= 0]) iteration 0 gets the rate 0, below [min_lr]; with a
    warmup horizon beyond the decay horizon an iteration past the decay
    horizon still gets the warmup value; and with an empty decay window
    iteration 0 gets no rate at all. *)
Lemma get_lr_floor_counterexample :
  ((min_lr default_config <= lr default_config)%R
   /\ (0 <= min_lr default_config)%R
   /\ ~ (exists v, get_lr default_config 0 = Ok v
                   /\ (min_lr default_config <= v)%R))
  /\ ((lr_decay_iters misordered_config < 7)%Z
      /\ get_lr misordered_config 7 <> Ok (min_lr misordered_config))
  /\ get_lr empty_window_config 0 = Raise ZeroDivisionError.
Proof.
  split; [|split].
  - simpl. split; [lra|]. split; [lra|].
    intros [v [Hv Hle]].
    rewrite get_lr_in_warmup in Hv by (simpl; lia).
    injection Hv as <-. simpl in Hle. lra.
  - split; [simpl; lia|].
    rewrite get_lr_in_warmup by (simpl; lia).
    intros H. injection H as H. simpl in H. lra.
  - reflexivity.
Qed.

(** Witness of [get_lr_warmup_ramp]: the default schedule. *)
Lemma get_lr_warmup_ramp_witness :
  get_lr default_config 0 = Ok 0%R
  /\ (forall i, (0 <= i < warmup_iters default_config)%Z ->
        get_lr default_config i
        = Ok (lr default_config * IZR i
              / IZR (warmup_iters default_config))%R)
  /\ (forall i j, (0 <= i)%Z -> (i < j)%Z ->
        (j < warmup_iters default_config)%Z ->
        exists vi vj, get_lr default_config i = Ok vi
                      /\ get_lr default_config j = Ok vj /\ (vi <= vj)%R)
  /\ (forall i, (0 <= i < 1999)%Z ->
        exists a b,
          TrainFloat.warmup_lr TrainFloat.default_lr i 2000 = Ok a
          /\ TrainFloat.warmup_lr TrainFloat.default_lr (i + 1) 2000 = Ok b
          /\ PrimFloat.ltb a b = true).
Proof.
  apply (get_lr_warmup_ramp default_config); simpl; [lra | lia].
Defined.

(** C5 as stated fails in binary64: with the base rate [5e-324], which is
    positive, and 2000 warmup iterations, the rates of iterations 1 and 2 are
    both [0.0], so the ramp does not strictly increase. *)
Lemma warmup_ramp_not_strict :
  PrimFloat.ltb PrimFloat.zero TrainFloat.tiny_lr = true
  /\ TrainFloat.warmup_lr TrainFloat.tiny_lr 1 2000 = Ok PrimFloat.zero
  /\ TrainFloat.warmup_lr TrainFloat.tiny_lr 2 2000 = Ok PrimFloat.zero
  /\ PrimFloat.ltb PrimFloat.zero PrimFloat.zero = false.
Proof. repeat split; vm_compute; reflexivity. Qed.

(** Witness of [get_lr_decay_window]: the default schedule at 65000. *)
Lemma get_lr_decay_window_witness :
  (0 <= decay_ratio default_config 65000 <= 1)%Q
  /\ get_lr default_config 65000
     = Ok (min_lr default_config
           + coeff (decay_ratio default_config 65000)
             * (lr default_config - min_lr default_config))%R
  /\ get_lr default_config 65000 <> Raise AssertionError.
Proof.
  apply (get_lr_decay_window default_config 65000); simpl; lia.
Defined.

(** ** The batch source *)

Section BatchSource.

Context {A : Type}.

Lemma chunks_bounded (fuel b : nat) (l : list A) :
  Forall (fun c => (length c <= b)%nat) (chunks fuel b l).
Proof.
  revert l. induction fuel as [|fuel IH]; intros l; simpl.
  - constructor.
  - destruct l as [|x l]; [constructor|].
    constructor; [apply firstn_le_length|apply IH].
Qed.

Lemma chunks_first_full (b : nat) (l : list A) :
  (0 < b)%nat -> (b <= length l)%nat ->
  exists rest, chunks (length l) b l = firstn b l :: rest
               /\ length (firstn b l) = b.
Proof.
  intros Hb Hl. destruct l as [|x l]; [simpl in Hl; lia|].
  exists (chunks (length l) b (skipn b (x :: l))).
  split; [reflexivity|].
  rewrite length_firstn. lia.
Qed.

(** A fresh iterator over a dataset of at least one full batch. *)
Lemma iter_first_full (ld : DataLoader A) (k : nat) :
  (0 < loader_batch_size ld)%Z ->
  (loader_batch_size ld
   <= Z.of_nat (length (shuffle ld k (dataset ld))))%Z ->
  exists b rest,
    iter ld k = b :: rest
    /\ Z.of_nat (length b) = loader_batch_size ld
    /\ Forall (fun c => (Z.of_nat (length c) <= loader_batch_size ld)%Z) rest.
Proof.
  intros Hpos Hlen. unfold iter. cbv zeta.
  set (pass := shuffle ld k (dataset ld)) in *.
  set (b := Z.to_nat (loader_batch_size ld)).
  destruct (chunks_first_full b pass) as [rest [Hc Hf]]; [lia|lia|].
  exists (firstn b pass), rest. split; [exact Hc|]. split; [lia|].
  pose proof (chunks_bounded (length pass) b pass) as Hall.
  rewrite Hc in Hall. inversion Hall as [|c cs _ Hrest]; subst.
  eapply Forall_impl; [|exact Hrest].
  intros c Hc'. simpl in Hc'. lia.
Qed.

Lemma reset_batch_iter_full (t : Trainer A) :
  full_passes t ->
  exists b rest,
    batch_iter (reset_batch_iter t) = b :: rest
    /\ Z.of_nat (length b) = batch_size (config t)
    /\ full_passes (set_batch_iter (reset_batch_iter t) rest).
Proof.
  intros (Hpos & Hbs & Hlen & Hpend).
  destruct (iter_first_full (train_loader t) (iters_made t))
    as (b & rest & Hi & Hb & Hrest).
  - rewrite Hbs. exact Hpos.
  - rewrite Hbs. apply Hlen.
  - exists b, rest. simpl. split; [exact Hi|].
    split; [rewrite Hb; exact Hbs|].
    unfold full_passes; simpl. repeat split; try assumption.
    rewrite <- Hbs. exact Hrest.
Qed.

Lemma set_batch_iter_full (t : Trainer A) (b : list A) (rest : list (list A)) :
  full_passes t -> batch_iter t = b :: rest ->
  full_passes (set_batch_iter t rest).
Proof.
  intros (Hpos & Hbs & Hlen & Hpend) Hit.
  unfold full_passes; simpl. repeat split; try assumption.
  rewrite Hit in Hpend. inversion Hpend; assumption.
Qed.

(** One call: a full batch comes back and the invariant is kept. *)
Lemma train_loop_full (t : Trainer A) :
  full_passes t ->
  exists b t',
    train_loop t = Ok (b, t')
    /\ Z.of_nat (length b) = batch_size (config t)
    /\ config t' = config t
    /\ full_passes t'.
Proof.
  intros Hinv. unfold train_loop.
  destruct (batch_iter t) as [|images it] eqn:Hit; simpl.
  - (* exhausted: the handler starts a new pass *)
    unfold on_stop_iteration.
    destruct (reset_batch_iter_full t Hinv) as (b & rest & Hi & Hb & Hf).
    rewrite Hi. simpl. exists b, (set_batch_iter (reset_batch_iter t) rest).
    split; [reflexivity|]. split; [exact Hb|]. split; [reflexivity|exact Hf].
  - pose proof (set_batch_iter_full t images it Hinv Hit) as Hinv1.
    destruct (Z.ltb_spec (Z.of_nat (length images)) (batch_size (config t)))
      as [Hshort|Hfull].
    + (* short batch: a new pass is started *)
      destruct (reset_batch_iter_full _ Hinv1) as (b & rest & Hi & Hb & Hf).
      simpl in Hi, Hb. rewrite Hi. simpl.
      exists b, (set_batch_iter (reset_batch_iter (set_batch_iter t it)) rest).
      split; [reflexivity|]. split; [exact Hb|].
      split; [reflexivity|exact Hf].
    + exists images, (set_batch_iter t it).
      split; [reflexivity|]. split; [|split; [reflexivity|exact Hinv1]].
      destruct Hinv as (_ & _ & _ & Hpend).
      rewrite Hit in Hpend. inversion Hpend; subst. lia.
Qed.

Lemma train_loops_full (n : nat) (t : Trainer A) :
  full_passes t ->
  exists bs t',
    train_loops n t = Ok (bs, t')
    /\ length bs = n
    /\ Forall (fun b => Z.of_nat (length b) = batch_size (config t)) bs.
Proof.
  revert t. induction n as [|n IH]; intros t Hinv; simpl.
  - exists [], t. repeat split. constructor.
  - destruct (train_loop_full t Hinv) as (b & t1 & Hl & Hb & Hc & Hinv1).
    destruct (IH t1 Hinv1) as (bs & t2 & Hls & Hn & Hall).
    rewrite Hl. simpl. rewrite Hls. simpl.
    exists (b :: bs), t2. split; [reflexivity|].
    split; [simpl; congruence|].
    constructor; [exact Hb|]. rewrite <- Hc. exact Hall.
Qed.

(** C3 (amended): when the training split holds at least one full batch,
    the trainer is built and every call of any sequence of calls feeds
    forward a batch of exactly [batch_size] samples: exhaustion and short
    terminal batches start a new pass. *)
Theorem train_loop_batch_size (cfg : TrainConfig) (train_ds eval_ds : list A)
    (sampler : nat -> list A -> list A) (n : nat) :
  (forall k, Permutation (sampler k train_ds) train_ds) ->
  (0 < batch_size cfg <= Z.of_nat (length train_ds))%Z ->
  exists t0 bs t',
    new_trainer cfg train_ds eval_ds sampler = Ok t0
    /\ train_loops n t0 = Ok (bs, t')
    /\ length bs = n
    /\ Forall (fun b => Z.of_nat (length b) = batch_size cfg) bs.
Proof.
  intros Hperm [Hpos Hlen].
  unfold new_trainer, new_shuffled_loader, new_loader.
  destruct train_ds as [|x0 train_ds0] eqn:Eds; [simpl in Hlen; lia|].
  rewrite <- Eds in *. clear Eds.
  destruct (Z.leb_spec (batch_size cfg) 0) as [H|_]; [lia|]. simpl.
  set (tl := {| dataset := train_ds; loader_batch_size := batch_size cfg;
                shuffle := sampler |}).
  set (el := {| dataset := eval_ds; loader_batch_size := batch_size cfg;
                shuffle := no_shuffle |}).
  set (t0 := {| config := cfg; train_loader := tl; eval_loader := el;
                batch_iter := iter tl 0; iters_made := 1 |}).
  assert (Hpass : forall k,
            (batch_size cfg <= Z.of_nat (length (sampler k train_ds)))%Z).
  { intros k. rewrite (Permutation_length (Hperm k)). exact Hlen. }
  assert (Hinv : full_passes t0).
  { unfold full_passes; simpl. repeat split; try assumption.
    destruct (iter_first_full tl 0) as (b & rest & Hi & Hb & Hrest);
      [exact Hpos|apply Hpass|].
    rewrite Hi. constructor; [simpl in Hb; lia|exact Hrest]. }
  destruct (train_loops_full n t0 Hinv) as (bs & t' & Hl & Hn & Hall).
  exists t0, bs, t'. repeat split; assumption.
Qed.

End BatchSource.

(** Witness of [train_loop_batch_size]: five samples in batches of two,
    reversed on every other pass, seven calls. *)
Lemma train_loop_batch_size_witness :
  exists t0 bs t',
    new_trainer (small_config 2 10) [0; 1; 2; 3; 4]%nat [] alternating = Ok t0
    /\ train_loops 7 t0 = Ok (bs, t')
    /\ length bs = 7%nat
    /\ Forall (fun b => Z.of_nat (length b) = batch_size (small_config 2 10))
              bs.
Proof.
  apply (train_loop_batch_size (small_config 2 10) [0; 1; 2; 3; 4]%nat []
           alternating 7).
  - intros k. unfold alternating. destruct (Nat.even k).
    + apply Permutation_refl.
    + apply Permutation_sym, Permutation_rev.
  - simpl. lia.
Defined.

(** C3 as stated fails: with three training samples and the default batch
    size of 128, the very first call feeds forward a batch of three. *)
Lemma train_loop_short_batch :
  exists t0 t',
    new_trainer default_config [0; 1; 2]%nat [] no_shuffle = Ok t0
    /\ train_loop t0 = Ok ([0; 1; 2]%nat, t')
    /\ (Z.of_nat (length [0; 1; 2]%nat) < batch_size default_config)%Z.
Proof.
  eexists. eexists. split; [reflexivity|]. split; [reflexivity|].
  simpl. lia.
Qed.

(** ** Evaluation *)

(** What [evaluate] returns in terms of the totals of its loop: the divisor
    is [len(self.eval_loader)], one more than the number of rounds. *)
Lemma evaluate_divides_by_len {A : Type} (t : Trainer A) (model : Model)
    (total_loss sum_accuracy : Q) :
  evaluate_batches (Z.to_nat (len (eval_loader t) - 1)) model
    (iter (eval_loader t) 0) 0 0 = Ok (total_loss, sum_accuracy) ->
  len (eval_loader t) <> 0%Z ->
  evaluate t model
  = Ok (total_loss / inject_Z (len (eval_loader t)),
        sum_accuracy / inject_Z (len (eval_loader t)))%Q.
Proof.
  intros Hloop Hlen. unfold evaluate. cbv zeta. rewrite Hloop. simpl.
  apply Z.eqb_neq in Hlen. rewrite Hlen. reflexivity.
Qed.

(** C2 fails on the code: an evaluation split of four samples in batches of
    two, a model with loss 1 and accuracy 1 on every batch.  One batch is
    processed and the totals are (1, 1), yet the averages returned are
    (1/2, 1/2): the totals are divided by the two batches of the loader. *)
Theorem evaluate_two_batches :
  exists t0 total_loss sum_accuracy avg_loss avg_accuracy,
    new_trainer (small_config 2 10) [0; 1; 2; 3]%nat [0; 1; 2; 3]%nat
      no_shuffle = Ok t0
    /\ iter (eval_loader t0) 0 = [[0; 1]; [2; 3]]%nat
    /\ len (eval_loader t0) = 2%Z
    /\ evaluate_totals t0 perfect_model = Ok (total_loss, sum_accuracy)
    /\ total_loss == 1 /\ sum_accuracy == 1
    /\ evaluate t0 perfect_model = Ok (avg_loss, avg_accuracy)
    /\ avg_loss == 1 # 2 /\ avg_accuracy == 1 # 2
    /\ ~ avg_loss == total_loss / 1 /\ ~ avg_accuracy == sum_accuracy / 1.
Proof.
  do 5 eexists.
  split; [reflexivity|]. split; [reflexivity|]. split; [reflexivity|].
  split; [reflexivity|]. split; [reflexivity|]. split; [reflexivity|].
  split; [reflexivity|]. split; [reflexivity|]. split; [reflexivity|].
  split; intros H; vm_compute in H; discriminate H.
Qed.

(** ** Checkpointing *)

(** Whether an evaluating iteration writes a checkpoint depends on the
    reported accuracy and the constant [best_val_accuracy] alone, not on
    what was saved before. *)
Lemma train_iteration_checkpoint {A : Type} (evaluation : Z -> result (Q * Q))
    (st st' : TrainState A) (iteration : Z) (avg_loss avg_accuracy : Q) :
  train_iteration evaluation st iteration = Ok st' ->
  eval_iters (config (trainer st)) <> 0%Z ->
  (iteration mod eval_iters (config (trainer st)) = 0)%Z ->
  (0 < iteration)%Z ->
  evaluation iteration = Ok (avg_loss, avg_accuracy) ->
  saved st'
  = if Qlt_bool best_val_accuracy avg_accuracy
    then saved st ++ [{| ckpt_iteration := iteration;
                         eval_accuracy := avg_accuracy |}]
    else saved st.
Proof.
  intros Hstep Hne Hmod Hpos Heval. unfold train_iteration in Hstep.
  destruct (get_lr _ _) as [r|e]; simpl in Hstep; [|discriminate].
  destruct (train_loop _) as [[b t1]|e]; simpl in Hstep; [|discriminate].
  destruct (py_mod iteration (log_iters _)) as [ml|e]; simpl in Hstep;
    [|discriminate].
  unfold py_mod in Hstep.
  apply Z.eqb_neq in Hne. rewrite Hne in Hstep. simpl in Hstep.
  rewrite Hmod in Hstep. simpl in Hstep.
  destruct (Z.gtb_spec iteration 0) as [_|H]; [|lia].
  rewrite Heval in Hstep. simpl in Hstep.
  destruct (Qlt_bool best_val_accuracy avg_accuracy);
    injection Hstep as <-; reflexivity.
Qed.

(** C1 fails on the code: a run of the default configuration cut after
    iteration 50000, whose five evaluations report the accuracies
    0.40, 0.40, 0.55, 0.50, 0.60.  The run writes a checkpoint at every one
    of the five evaluations, since each accuracy exceeds the initial
    [best_val_accuracy], which is never updated; the policy of the
    specification writes three. *)
Theorem train_saves_at_every_evaluation :
  run_checkpoints (small_config 128 50001) (seq 0 300) [] evaluation_at
  = Ok [ {| ckpt_iteration := 10000; eval_accuracy := 40 # 100 |};
         {| ckpt_iteration := 20000; eval_accuracy := 40 # 100 |};
         {| ckpt_iteration := 30000; eval_accuracy := 55 # 100 |};
         {| ckpt_iteration := 40000; eval_accuracy := 50 # 100 |};
         {| ckpt_iteration := 50000; eval_accuracy := 60 # 100 |} ]
  /\ spec_checkpoint_policy best_val_accuracy accuracy_sequence
     = [true; false; true; false; true].
Proof.
  split; vm_compute; reflexivity.
Qed.

End TrainProofs.

(** * Properties of tinymm/ALBEF/model.py *)

Module ALBEFProofs.

Import ALBEF ALBEFInputs.

Local Open Scope R_scope.

(** ** Sums *)

Lemma Rsum_ext (l : list nat) (f g : nat -> R) :
  (forall i, In i l -> f i = g i) -> Rsum l f = Rsum l g.
Proof.
  unfold Rsum. induction l as [|x l IH]; intros H; simpl.
  - reflexivity.
  - rewrite (H x) by (left; reflexivity).
    rewrite IH; [reflexivity|].
    intros i Hi. apply H. right. exact Hi.
Qed.

Lemma Rsum_scale (c : R) (l : list nat) (f : nat -> R) :
  Rsum l (fun k => c * f k) = c * Rsum l f.
Proof.
  unfold Rsum. induction l as [|x l IH]; simpl.
  - ring.
  - rewrite IH. ring.
Qed.

Lemma in_seq_0 (n i : nat) : In i (seq 0 n) <-> (i < n)%nat.
Proof. rewrite in_seq. lia. Qed.

(** ** Cross-entropy *)

Lemma target_ok_class (classes : nat) (ignore_index t : Z) :
  target_ok classes ignore_index t = true -> t <> ignore_index ->
  (Z.to_nat t < classes)%nat.
Proof.
  unfold target_ok. intros H Hne.
  apply orb_true_iff in H. destruct H as [H|H].
  - apply Z.eqb_eq in H. contradiction.
  - apply andb_true_iff in H. destruct H as [H0 H1].
    apply Z.leb_le in H0. apply Z.ltb_lt in H1. lia.
Qed.

Lemma kept_rows_spec (target : IntVector) (ignore_index : Z) (n i : nat) :
  In i (kept_rows target ignore_index n)
  <-> (i < n)%nat /\ iat target i <> ignore_index.
Proof.
  unfold kept_rows. rewrite filter_In, in_seq_0, negb_true_iff, Z.eqb_neq.
  reflexivity.
Qed.

(** The loss reads the input only at the rows whose target is not ignored. *)
Lemma cross_entropy_ext (x y : Matrix) (target : IntVector)
    (ignore_index : Z) :
  rows x = rows y -> cols x = cols y ->
  (forall i j, (i < rows x)%nat -> (j < cols x)%nat ->
               iat target i <> ignore_index -> at2 x i j = at2 y i j) ->
  cross_entropy x target ignore_index = cross_entropy y target ignore_index.
Proof.
  intros Hr Hc Hagree. unfold cross_entropy. rewrite <- Hr, <- Hc.
  destruct (negb (Nat.eqb (rows x) (ilen target))); [reflexivity|].
  destruct (forallb _ _) eqn:Hok; simpl; [|reflexivity].
  destruct (kept_rows target ignore_index (rows x)) as [|k ks] eqn:Hk;
    [reflexivity|].
  f_equal. f_equal. f_equal.
  apply Rsum_ext. intros i Hi.
  rewrite <- Hk in Hi. apply kept_rows_spec in Hi. destruct Hi as [Hi Hne].
  rewrite forallb_forall in Hok.
  pose proof (target_ok_class _ _ _ (Hok i (proj2 (in_seq_0 _ _) Hi)) Hne)
    as Hcls.
  unfold nll. rewrite <- Hc. f_equal.
  - f_equal. apply Rsum_ext. intros j Hj. apply in_seq_0 in Hj.
    rewrite (Hagree i j) by assumption. reflexivity.
  - apply Hagree; assumption.
Qed.

Lemma kept_rows_arange (n : nat) :
  kept_rows (arange n) default_ignore_index n = seq 0 n.
Proof.
  unfold kept_rows. apply forallb_filter_id.
  apply forallb_forall. intros i _. simpl.
  apply negb_true_iff, Z.eqb_neq. unfold default_ignore_index. lia.
Qed.

(** On a square matrix with the identity labels the loss is defined, and
    is the mean of the per-row negative log-likelihoods of the diagonal. *)
Lemma cross_entropy_arange (x : Matrix) (n : nat) :
  rows x = n -> cols x = n ->
  cross_entropy x (arange n) default_ignore_index
  = Ok (match n with
        | O => NaN
        | S _ => Finite (Rsum (seq 0 n) (fun i => nll x i (Z.of_nat i))
                         / INR n)
        end).
Proof.
  intros Hr Hc. unfold cross_entropy. rewrite Hr, Hc. simpl ilen.
  rewrite Nat.eqb_refl. simpl negb. cbv iota.
  replace (forallb _ (seq 0 n)) with true.
  2:{ symmetry. apply forallb_forall. intros i Hi. apply in_seq_0 in Hi.
      unfold target_ok. simpl iat. apply orb_true_iff. right.
      apply andb_true_iff. split; [apply Z.leb_le|apply Z.ltb_lt]; lia. }
  simpl negb. cbv iota. rewrite kept_rows_arange.
  destruct n as [|n]; [reflexivity|].
  rewrite length_seq. reflexivity.
Qed.

(** ** The contrastive loss *)

(** The similarity matrix of the code, [(exp(s) * I) @ T.T], has the shape
    and the entries of the one of the specification, [exp(s) * (I @ T.T)]. *)
Lemma similarity_agrees (s : R) (I T : Matrix) :
  cols I = cols T ->
  exists logits_per_image similarity,
    matmul (scale (exp s) I) (transpose T) = Ok logits_per_image
    /\ spec_similarity s I T = Ok similarity
    /\ rows logits_per_image = rows I /\ cols logits_per_image = rows T
    /\ rows similarity = rows I /\ cols similarity = rows T
    /\ (forall i j, at2 logits_per_image i j = at2 similarity i j).
Proof.
  intros Hc. unfold spec_similarity, matmul. simpl.
  rewrite Hc, Nat.eqb_refl. simpl.
  eexists. eexists. split; [reflexivity|]. split; [reflexivity|]. simpl.
  repeat split.
  intros i j. rewrite <- Rsum_scale. apply Rsum_ext.
  intros k _. ring.
Qed.

Lemma matmul_defined (x y : Matrix) :
  cols x = rows y ->
  exists z, matmul x y = Ok z /\ rows z = rows x /\ cols z = cols y.
Proof.
  intros H. unfold matmul. rewrite H, Nat.eqb_refl.
  eexists. repeat split.
Qed.

Lemma matmul_shape_error (x y : Matrix) :
  cols x <> rows y -> matmul x y = Raise RuntimeError.
Proof.
  intros H. unfold matmul. apply Nat.eqb_neq in H. rewrite H. reflexivity.
Qed.

(** The loss computed by lines 77-84 is the loss of the specification, on
    every pair of embedding batches, errors included. *)
Lemma contrastive_refines_spec (s : R) (I T : Matrix) :
  bind (contrastive s I T) (fun '(_, _, _, itc_loss) => Ok itc_loss)
  = spec_contrastive_loss s I T.
Proof.
  unfold contrastive, spec_contrastive_loss.
  destruct (Nat.eq_dec (cols I) (cols T)) as [Hc|Hc].
  - destruct (similarity_agrees s I T Hc)
      as (lpi & sim & Hl & Hs & Hlr & Hlc & Hsr & Hsc & Hat).
    rewrite Hl, Hs. simpl. rewrite Hlr, Hsr.
    rewrite (cross_entropy_ext lpi sim) by (intros; congruence).
    rewrite (cross_entropy_ext (transpose lpi) (transpose sim))
      by (simpl; intros; congruence).
    destruct (cross_entropy sim _ _) as [a|e]; simpl; [|reflexivity].
    destruct (cross_entropy (transpose sim) _ _) as [b|e]; reflexivity.
  - unfold spec_similarity.
    rewrite !matmul_shape_error by (simpl; exact Hc). reflexivity.
Qed.

(** C8: for [N] image and [N] text embeddings of one width, the
    similarity matrix [exp(logit_scale) * I * T^t] is [N] by [N], both
    cross-entropies over it with the labels [0..N-1] are defined (one on
    the matrix, one on its transpose), and the contrastive loss of the code
    is their average. *)
Theorem contrastive_is_symmetric_cross_entropy (s : R) (I T : Matrix)
    (N : nat) :
  rows I = N -> rows T = N -> cols I = cols T ->
  exists similarity row_wise column_wise logits_per_image logits_per_text,
    spec_similarity s I T = Ok similarity
    /\ rows similarity = N /\ cols similarity = N
    /\ cross_entropy similarity (arange N) default_ignore_index
       = Ok row_wise
    /\ cross_entropy (transpose similarity) (arange N) default_ignore_index
       = Ok column_wise
    /\ contrastive s I T
       = Ok (logits_per_image, logits_per_text, arange N,
             scalar_div (scalar_add row_wise column_wise) 2)
    /\ spec_contrastive_loss s I T
       = Ok (scalar_div (scalar_add row_wise column_wise) 2).
Proof.
  intros HI HT Hc.
  destruct (similarity_agrees s I T Hc)
    as (lpi & sim & Hl & Hs & Hlr & Hlc & Hsr & Hsc & Hat).
  rewrite HI in Hlr, Hsr. rewrite HT in Hlc, Hsc.
  assert (exists r, cross_entropy sim (arange N) default_ignore_index = Ok r)
    as [row Hrow]
    by (eexists; apply cross_entropy_arange; assumption).
  assert (exists r, cross_entropy (transpose sim) (arange N)
                      default_ignore_index = Ok r)
    as [col Hcol]
    by (eexists; apply cross_entropy_arange; assumption).
  assert (Hcode : contrastive s I T
                  = Ok (lpi, transpose lpi, arange N,
                        scalar_div (scalar_add row col) 2)).
  { unfold contrastive. rewrite Hl. simpl. rewrite Hlr.
    rewrite (cross_entropy_ext lpi sim) by (intros; congruence).
    rewrite (cross_entropy_ext (transpose lpi) (transpose sim))
      by (simpl; intros; congruence).
    rewrite Hrow, Hcol. simpl. reflexivity. }
  exists sim, row, col, lpi, (transpose lpi).
  split; [exact Hs|]. split; [exact Hsr|]. split; [exact Hsc|].
  split; [exact Hrow|]. split; [exact Hcol|]. split; [exact Hcode|].
  rewrite <- contrastive_refines_spec, Hcode. reflexivity.
Qed.

Lemma nll_single_class (x : Matrix) (i : nat) :
  cols x = 1%nat -> nll x i 0 = 0.
Proof.
  intros Hc. unfold nll, Rsum. rewrite Hc. simpl.
  rewrite Rplus_0_r, ln_exp. ring.
Qed.

(** With one image and one text the loss is 0, on all embedding values. *)
Lemma contrastive_one_pair (s : R) (I T : Matrix) :
  rows I = 1%nat -> rows T = 1%nat -> cols I = cols T ->
  exists logits_per_image logits_per_text labels,
    contrastive s I T
    = Ok (logits_per_image, logits_per_text, labels, Finite 0).
Proof.
  intros HI HT Hc.
  destruct (matmul_defined (scale (exp s) I) (transpose T) Hc)
    as (lpi & Hm & Hr & Hc').
  simpl in Hr, Hc'. rewrite HI in Hr. rewrite HT in Hc'.
  unfold contrastive. rewrite Hm. simpl. rewrite Hr.
  rewrite (cross_entropy_arange lpi 1 Hr Hc').
  rewrite (cross_entropy_arange (transpose lpi) 1 Hc' Hr).
  simpl. unfold Rsum. simpl.
  rewrite !nll_single_class by (simpl; assumption).
  exists lpi, (transpose lpi), (arange 1).
  replace (((0 + 0) / 1 + (0 + 0) / 1) / 2) with 0 by field.
  reflexivity.
Qed.

(** ** The forward pass *)

Lemma forward_inv (m : Model) (images : Tensor4) (texts targets : IntMatrix)
    (out : Output) :
  forward m (images, texts, targets) = Ok out ->
  (exists logits_per_image logits_per_text labels,
      contrastive (logit_scale m)
        (normalize (fst (img_encoder m images)))
        (normalize (fst (txt_encoder m texts)))
      = Ok (logits_per_image, logits_per_text, labels, out_itc_loss out))
  /\ generative m (snd (img_encoder m images)) (snd (txt_encoder m texts))
       (icols texts) targets
     = Ok (out_logits out, out_mlm_loss out)
  /\ out_targets out = targets
  /\ out_total_loss out = scalar_add (out_itc_loss out) (out_mlm_loss out).
Proof.
  unfold forward.
  destruct (img_encoder m images) as [img_embds img_feature].
  destruct (txt_encoder m texts) as [txt_embds txt_feature]. simpl.
  destruct (contrastive _ _ _) as [[[[lpi lpt] labels] itc]|e]; simpl;
    [|discriminate].
  destruct (generative _ _ _ _ _) as [[logits mlm]|e]; simpl; [|discriminate].
  intros H. injection H as <-. simpl.
  split; [exists lpi, lpt, labels; reflexivity|].
  repeat split.
Qed.

Lemma generative_inv (m : Model) (img_feature txt_feature : Tensor3)
    (text_seq_len : nat) (targets : IntMatrix) (logits : Tensor3)
    (mlm_loss : scalar) :
  generative m img_feature txt_feature text_seq_len targets
  = Ok (logits, mlm_loss) ->
  exists input,
    view2 logits = Ok input
    /\ cross_entropy input (view1 targets) (-1) = Ok mlm_loss.
Proof.
  unfold generative.
  destruct (cat1 img_feature txt_feature) as [out|e]; simpl; [|discriminate].
  destruct (view2 _) as [input|e] eqn:Hv; simpl; [|discriminate].
  destruct (cross_entropy input _ _) as [l|e] eqn:Hce; simpl; [|discriminate].
  intros H. injection H as <- <-.
  exists input. split; assumption.
Qed.



(** C10: for a batch of a single pair the contrastive loss is 0 whatever
    the encoders return as embeddings: the contrastive part of the forward
    pass is defined and yields 0, and so does every forward pass that
    returns. *)
Theorem contrastive_single_pair (m : Model) (images : Tensor4)
    (texts targets : IntMatrix) :
  rows (fst (img_encoder m images)) = 1%nat ->
  rows (fst (txt_encoder m texts)) = 1%nat ->
  cols (fst (img_encoder m images)) = cols (fst (txt_encoder m texts)) ->
  (exists logits_per_image logits_per_text labels,
      contrastive (logit_scale m)
        (normalize (fst (img_encoder m images)))
        (normalize (fst (txt_encoder m texts)))
      = Ok (logits_per_image, logits_per_text, labels, Finite 0))
  /\ (forall out, forward m (images, texts, targets) = Ok out ->
                  out_itc_loss out = Finite 0).
Proof.
  intros HI HT Hc.
  assert (Hone : exists lpi lpt labels,
            contrastive (logit_scale m)
              (normalize (fst (img_encoder m images)))
              (normalize (fst (txt_encoder m texts)))
            = Ok (lpi, lpt, labels, Finite 0))
    by (apply contrastive_one_pair; simpl; assumption).
  split; [exact Hone|].
  intros out Hout. apply forward_inv in Hout.
  destruct Hout as [(lpi & lpt & labels & Hitc) _].
  destruct Hone as (lpi' & lpt' & labels' & Hzero).
  rewrite Hzero in Hitc. injection Hitc as _ _ _ Hl. symmetry. exact Hl.
Qed.

(** C9: two forward passes on the same targets whose token logits have one
    shape and agree at every position whose target is not the sentinel -1
    return the same masked-token loss. *)
Theorem mlm_loss_ignores_sentinel (m m' : Model) (images images' : Tensor4)
    (texts texts' targets : IntMatrix) (out out' : Output) :
  forward m (images, texts, targets) = Ok out ->
  forward m' (images', texts', targets) = Ok out' ->
  dim0 (out_logits out) = dim0 (out_logits out') ->
  dim1 (out_logits out) = dim1 (out_logits out') ->
  dim2 (out_logits out) = dim2 (out_logits out') ->
  (forall b l v,
      (b < dim0 (out_logits out))%nat -> (l < dim1 (out_logits out))%nat ->
      (v < dim2 (out_logits out))%nat ->
      iat (view1 targets) (b * dim1 (out_logits out) + l) <> (-1)%Z ->
      at3 (out_logits out) b l v = at3 (out_logits out') b l v) ->
  out_mlm_loss out = out_mlm_loss out'.
Proof.
  intros Hf Hf' H0 H1 H2 Hagree.
  apply forward_inv in Hf. destruct Hf as (_ & Hg & _).
  apply forward_inv in Hf'. destruct Hf' as (_ & Hg' & _).
  apply generative_inv in Hg. destruct Hg as (input & Hv & Hce).
  apply generative_inv in Hg'. destruct Hg' as (input' & Hv' & Hce').
  set (lo := out_logits out) in *. set (lo' := out_logits out') in *.
  unfold view2 in Hv, Hv'.
  destruct (Nat.eqb (dim2 lo) 0); [discriminate|].
  destruct (Nat.eqb (dim2 lo') 0); [discriminate|].
  injection Hv as <-. injection Hv' as <-.
  assert (E : cross_entropy
                {| rows := dim0 lo * dim1 lo; cols := dim2 lo;
                   at2 := fun p v => at3 lo (p / dim1 lo) (p mod dim1 lo) v |}
                (view1 targets) (-1)
              = cross_entropy
                {| rows := dim0 lo' * dim1 lo'; cols := dim2 lo';
                   at2 := fun p v =>
                            at3 lo' (p / dim1 lo') (p mod dim1 lo') v |}
                (view1 targets) (-1)).
  { apply cross_entropy_ext; simpl; [congruence|congruence|].
    intros p v Hp Hv Ht. rewrite <- H1.
    assert (Hd : dim1 lo <> 0%nat) by (intros E; rewrite E in Hp; lia).
    apply Hagree.
    - apply Nat.Div0.div_lt_upper_bound. lia.
    - apply Nat.mod_upper_bound. exact Hd.
    - exact Hv.
    - replace (p / dim1 lo * dim1 lo + p mod dim1 lo)%nat with p;
        [exact Ht|].
      rewrite (Nat.div_mod_eq p (dim1 lo)) at 1. lia. }
  rewrite E, Hce' in Hce. injection Hce as Hl. symmetry. exact Hl.
Qed.


(** Witness of [contrastive_is_symmetric_cross_entropy]: two normalized
    embeddings on each side, the initial temperature. *)
Lemma contrastive_is_symmetric_cross_entropy_witness :
  exists similarity row_wise column_wise logits_per_image logits_per_text,
    spec_similarity (ln (100 / 7)) (normalize (embds 2)) (normalize (embds 2))
    = Ok similarity
    /\ rows similarity = 2%nat /\ cols similarity = 2%nat
    /\ cross_entropy similarity (arange 2) default_ignore_index
       = Ok row_wise
    /\ cross_entropy (transpose similarity) (arange 2) default_ignore_index
       = Ok column_wise
    /\ contrastive (ln (100 / 7)) (normalize (embds 2)) (normalize (embds 2))
       = Ok (logits_per_image, logits_per_text, arange 2,
             scalar_div (scalar_add row_wise column_wise) 2)
    /\ spec_contrastive_loss (ln (100 / 7)) (normalize (embds 2))
         (normalize (embds 2))
       = Ok (scalar_div (scalar_add row_wise column_wise) 2).
Proof.
  apply (contrastive_is_symmetric_cross_entropy (ln (100 / 7))
           (normalize (embds 2)) (normalize (embds 2)) 2);
    reflexivity.
Defined.

(** Witness of [mlm_loss_ignores_sentinel]: two heads whose logits differ
    at position (0, 0), where the target is the sentinel. *)
Lemma mlm_loss_ignores_sentinel_witness :
  exists out out',
    forward (model0 2 0) (images0, texts0, targets0) = Ok out
    /\ forward (model0 2 5) (images0, texts0, targets0) = Ok out'
    /\ at3 (out_logits out) 0 0 0 <> at3 (out_logits out') 0 0 0
    /\ out_mlm_loss out = out_mlm_loss out'.
Proof.
  eexists. eexists. split; [reflexivity|]. split; [reflexivity|].
  split; [simpl; lra|].
  apply (mlm_loss_ignores_sentinel (model0 2 0) (model0 2 5)
           images0 images0 texts0 texts0 targets0);
    try reflexivity.
  intros b l v _ _ _ Ht.
  destruct b as [|b], l as [|l]; try reflexivity.
  exfalso. apply Ht. reflexivity.
Defined.

(** Witness of [contrastive_single_pair]: a batch of one pair. *)
Lemma contrastive_single_pair_witness :
  (exists logits_per_image logits_per_text labels,
      contrastive (logit_scale (model0 1 0))
        (normalize (fst (img_encoder (model0 1 0) images1)))
        (normalize (fst (txt_encoder (model0 1 0) texts1)))
      = Ok (logits_per_image, logits_per_text, labels, Finite 0))
  /\ (forall out,
        forward (model0 1 0) (images1, texts1, targets1) = Ok out ->
        out_itc_loss out = Finite 0).
Proof.
  apply (contrastive_single_pair (model0 1 0) images1 texts1 targets1);
    reflexivity.
Defined.

(** The forward pass of that batch does return. *)
Lemma forward_single_pair_returns :
  exists out, forward (model0 1 0) (images1, texts1, targets1) = Ok out.
Proof. eexists. reflexivity. Qed.

End ALBEFProofs.

(** * Further properties of CLIP/train.py *)

Module TrainMore.

Import Train Inputs TrainMoreInputs TrainProofs.

(** ** The schedule: errors, boundary values, bounds and monotonicity *)

Section ScheduleMore.

Variable cfg : TrainConfig.

Local Open Scope Z_scope.

(** X1: the errors of [get_lr], exhaustively.  It raises [OverflowError]
    exactly on the warmup branch when the iteration or the warmup horizon is
    too large to convert to a double; [ZeroDivisionError] exactly for a
    convertible negative iteration with a warmup horizon of 0 and at the
    iteration at which an empty decay window starts; and nothing else: the
    assertion on the decay fraction cannot fail. *)
Theorem get_lr_raises_iff (i : Z) (e : exn) :
  get_lr cfg i = Raise e
  <-> (e = OverflowError
       /\ i < warmup_iters cfg
       /\ (float_overflows i = true
           \/ float_overflows (warmup_iters cfg) = true))
      \/ (e = ZeroDivisionError
          /\ ((i < warmup_iters cfg /\ warmup_iters cfg = 0
               /\ float_overflows i = false)
              \/ (i = warmup_iters cfg
                  /\ warmup_iters cfg = lr_decay_iters cfg))).
Proof.
  unfold get_lr.
  destruct (Z.ltb_spec i (warmup_iters cfg)) as [Hw|Hw].
  - destruct (float_overflows i) eqn:Oi.
    { split.
      - intros H. injection H as <-. left. tauto.
      - intros [(-> & _)|(_ & [(_ & _ & H)|(H & _)])];
          [reflexivity|discriminate|lia]. }
    destruct (float_overflows (warmup_iters cfg)) eqn:Ow.
    { split.
      - intros H. injection H as <-. left. tauto.
      - intros [(-> & _)|(_ & [(_ & H & _)|(H & _)])]; [reflexivity| |lia].
        rewrite H in Ow. discriminate. }
    destruct (Z.eqb_spec (warmup_iters cfg) 0) as [H0|H0].
    + split.
      * intros H. injection H as <-. right. tauto.
      * intros [(_ & _ & [H|H])|(-> & _)]; [discriminate..|reflexivity].
    + split; [discriminate|].
      intros [(_ & _ & [H|H])|(_ & [(_ & H & _)|(H & _)])];
        [discriminate..|contradiction|lia].
  - destruct (Z.gtb_spec i (lr_decay_iters cfg)) as [Hd|Hd].
    + split; [discriminate|].
      intros [(_ & H & _)|(_ & [(H & _)|(H1 & H2)])]; lia.
    + destruct (Z.eqb_spec (lr_decay_iters cfg - warmup_iters cfg) 0)
        as [H0|H0].
      * split.
        -- intros H. injection H as <-. right. split; [reflexivity|].
           right. lia.
        -- intros [(_ & H & _)|(-> & _)]; [lia|reflexivity].
      * destruct (decay_ratio_bounds cfg i) as [Hlo Hhi]; [lia|lia|].
        apply Qle_bool_iff in Hlo. apply Qle_bool_iff in Hhi.
        cbv zeta. rewrite Hlo, Hhi. simpl.
        split; [discriminate|].
        intros [(_ & H & _)|(_ & [(H & _)|(H1 & H2)])]; lia.
Qed.

Lemma decay_ratio_start :
  warmup_iters cfg < lr_decay_iters cfg ->
  Q2R (decay_ratio cfg (warmup_iters cfg)) = 0%R.
Proof.
  intros H. unfold decay_ratio. rewrite Z.sub_diag.
  rewrite (Qeq_eqR _ 0); [apply RMicromega.Q2R_0|].
  unfold Qdiv. apply Qmult_0_l.
Qed.

Lemma decay_ratio_end :
  warmup_iters cfg < lr_decay_iters cfg ->
  Q2R (decay_ratio cfg (lr_decay_iters cfg)) = 1%R.
Proof.
  intros H. unfold decay_ratio.
  rewrite (Qeq_eqR _ 1); [apply RMicromega.Q2R_1|].
  unfold Qdiv. apply Qmult_inv_r.
  unfold Qeq, inject_Z. simpl. lia.
Qed.

(** X2: with a non-empty decay window and [0 <= min_lr <= lr] the cosine
    coefficient is exactly 1 at the warmup horizon and exactly 0 at the
    decay horizon, where the rate returned is already [min_lr]: the schedule
    meets its floor without a jump. *)
Theorem get_lr_window_ends :
  warmup_iters cfg < lr_decay_iters cfg -> (0 <= min_lr cfg <= lr cfg)%R ->
  coeff (decay_ratio cfg (warmup_iters cfg)) = 1%R
  /\ coeff (decay_ratio cfg (lr_decay_iters cfg)) = 0%R
  /\ get_lr cfg (warmup_iters cfg)
     = Ok (min_lr cfg + 1 * (lr cfg - min_lr cfg))%R
  /\ get_lr cfg (lr_decay_iters cfg) = Ok (min_lr cfg)
  /\ get_lr cfg (lr_decay_iters cfg + 1) = Ok (min_lr cfg).
Proof.
  intros H _.
  assert (H1 : coeff (decay_ratio cfg (warmup_iters cfg)) = 1%R).
  { unfold coeff. rewrite decay_ratio_start by exact H.
    rewrite Rmult_0_r, cos_0. field. }
  assert (H0 : coeff (decay_ratio cfg (lr_decay_iters cfg)) = 0%R).
  { unfold coeff. rewrite decay_ratio_end by exact H.
    rewrite Rmult_1_r, cos_PI. field. }
  split; [exact H1|]. split; [exact H0|]. split; [|split].
  - rewrite get_lr_in_window by lia. rewrite H1. reflexivity.
  - rewrite get_lr_in_window by lia. rewrite H0. f_equal. ring.
  - apply get_lr_past_decay; lia.
Qed.

Lemma decay_ratio_monotone (i j : Z) :
  warmup_iters cfg < lr_decay_iters cfg -> i <= j ->
  (decay_ratio cfg i <= decay_ratio cfg j)%Q.
Proof.
  intros Hwd Hij. unfold decay_ratio.
  remember (lr_decay_iters cfg - warmup_iters cfg) as b eqn:Eb.
  assert (Hb : 0 < b) by lia.
  destruct b as [|p|p]; try lia.
  unfold Qdiv, Qinv, Qmult, Qle, inject_Z; simpl. nia.
Qed.

Lemma coeff_antitone (r s : Q) :
  (0 <= r)%Q -> (r <= s)%Q -> (s <= 1)%Q -> (coeff s <= coeff r)%R.
Proof.
  intros H0 Hrs H1.
  assert (Hr0 : (0 <= Q2R r)%R)
    by (rewrite <- RMicromega.Q2R_0; apply Qle_Rle; exact H0).
  assert (Hrs' : (Q2R r <= Q2R s)%R) by (apply Qle_Rle; exact Hrs).
  assert (Hs1 : (Q2R s <= 1)%R)
    by (rewrite <- RMicromega.Q2R_1; apply Qle_Rle; exact H1).
  pose proof PI_RGT_0 as Hpi.
  unfold coeff.
  assert (Hcos : (cos (PI * Q2R s) <= cos (PI * Q2R r))%R).
  { apply cos_decr_1; nra. }
  lra.
Qed.

(** X4: from the warmup horizon on the schedule never increases: with a
    non-empty decay window and [min_lr <= lr], a later iteration gets a rate
    that is at most the rate of an earlier one. *)
Theorem get_lr_decays (i j : Z) :
  warmup_iters cfg < lr_decay_iters cfg -> (min_lr cfg <= lr cfg)%R ->
  warmup_iters cfg <= i -> i <= j ->
  exists vi vj, get_lr cfg i = Ok vi /\ get_lr cfg j = Ok vj /\ (vj <= vi)%R.
Proof.
  intros Hwd Hlr Hi Hij.
  destruct (Z_lt_le_dec (lr_decay_iters cfg) i) as [Hdi|Hdi].
  - exists (min_lr cfg), (min_lr cfg).
    rewrite !get_lr_past_decay by lia. repeat split. lra.
  - destruct (Z_lt_le_dec (lr_decay_iters cfg) j) as [Hdj|Hdj].
    + eexists. exists (min_lr cfg).
      rewrite get_lr_in_window by lia. rewrite get_lr_past_decay by lia.
      repeat split.
      pose proof (coeff_bounds (decay_ratio cfg i)) as [Hlo _]. nra.
    + eexists. eexists.
      rewrite !get_lr_in_window by lia. repeat split.
      assert (Hc : (coeff (decay_ratio cfg j) <= coeff (decay_ratio cfg i))%R).
      { apply coeff_antitone.
        - apply (decay_ratio_bounds cfg i); lia.
        - apply decay_ratio_monotone; lia.
        - apply (decay_ratio_bounds cfg j); lia. }
      nra.
Qed.

End ScheduleMore.

(** Witness of [get_lr_window_ends]: the default schedule. *)
Lemma get_lr_window_ends_witness :
  coeff (decay_ratio default_config 2000) = 1%R
  /\ coeff (decay_ratio default_config 128000) = 0%R
  /\ get_lr default_config 2000
     = Ok (min_lr default_config
           + 1 * (lr default_config - min_lr default_config))%R
  /\ get_lr default_config 128000 = Ok (min_lr default_config)
  /\ get_lr default_config 128001 = Ok (min_lr default_config).
Proof.
  apply (get_lr_window_ends default_config); simpl; [lia|lra].
Defined.

(** Witness of [get_lr_decays]: iterations 3000 and 200000 of the default
    schedule. *)
Lemma get_lr_decays_witness :
  exists vi vj, get_lr default_config 3000 = Ok vi
                /\ get_lr default_config 200000 = Ok vj /\ (vj <= vi)%R.
Proof.
  apply (get_lr_decays default_config 3000 200000); simpl; try lia. lra.
Defined.

(** ** The batch source on any training split *)

Section BatchSourceMore.

Context {A : Type}.

Lemma chunks_props (fuel b : nat) (l : list A) :
  Forall (fun c => (length c <= Nat.min b (length l))%nat
                   /\ incl c l /\ (NoDup l -> NoDup c))
         (chunks fuel b l).
Proof.
  revert l. induction fuel as [|fuel IH]; intros l; simpl.
  - constructor.
  - destruct l as [|x l]; [constructor|].
    set (xs := x :: l). constructor.
    + split; [rewrite length_firstn; lia|]. split.
      * rewrite <- (firstn_skipn b xs) at 2. apply incl_appl, incl_refl.
      * intros Hnd. rewrite <- (firstn_skipn b xs) in Hnd.
        apply NoDup_app_remove_r in Hnd. exact Hnd.
    + eapply Forall_impl; [|apply IH].
      intros c (Hlen & Hincl & Hnd). split; [|split].
      * rewrite length_skipn in Hlen. lia.
      * rewrite <- (firstn_skipn b xs). apply incl_appr. exact Hincl.
      * intros H. apply Hnd. rewrite <- (firstn_skipn b xs) in H.
        apply NoDup_app_remove_l in H. exact H.
Qed.

Lemma chunks_nonempty (b : nat) (l : list A) :
  l <> [] -> exists rest, chunks (length l) b l = firstn b l :: rest.
Proof.
  intros H. destruct l as [|x l]; [contradiction|].
  eexists. reflexivity.
Qed.

(** A fresh iterator over a non-empty split. *)
Lemma iter_first_steady (ld : DataLoader A) (k : nat) :
  (0 < loader_batch_size ld)%Z -> dataset ld <> [] ->
  Permutation (shuffle ld k (dataset ld)) (dataset ld) ->
  let m := Z.min (loader_batch_size ld) (Z.of_nat (length (dataset ld))) in
  exists b rest,
    iter ld k = b :: rest
    /\ Z.of_nat (length b) = m
    /\ Forall (fun c => (Z.of_nat (length c) <= m)%Z
                        /\ incl c (dataset ld)
                        /\ (NoDup (dataset ld) -> NoDup c)) (b :: rest).
Proof.
  intros Hpos Hne Hperm m. unfold iter. cbv zeta.
  set (pass := shuffle ld k (dataset ld)) in *.
  set (b := Z.to_nat (loader_batch_size ld)).
  assert (Hlen : length pass = length (dataset ld))
    by (apply Permutation_length; exact Hperm).
  assert (Hall : Forall (fun c => (Z.of_nat (length c) <= m)%Z
                                  /\ incl c (dataset ld)
                                  /\ (NoDup (dataset ld) -> NoDup c))
                        (chunks (length pass) b pass)).
  { eapply Forall_impl; [|apply chunks_props].
    intros c (Hl & Hi & Hn). split; [unfold m; lia|]. split.
    - intros x Hx. eapply Permutation_in; [exact Hperm|]. apply Hi, Hx.
    - intros Hnd. apply Hn. eapply Permutation_NoDup; [|exact Hnd].
      apply Permutation_sym. exact Hperm. }
  assert (Hpne : pass <> []).
  { intros E. rewrite E in Hlen. destruct (dataset ld); [contradiction|].
    discriminate. }
  destruct (chunks_nonempty b pass Hpne) as [rest Hc].
  rewrite Hc in Hall |- *.
  exists (firstn b pass), rest. split; [reflexivity|]. split; [|exact Hall].
  rewrite length_firstn. unfold m. lia.
Qed.

Lemma reset_batch_iter_steady (t : Trainer A) :
  steady_source t ->
  exists b rest,
    batch_iter (reset_batch_iter t) = b :: rest
    /\ Z.of_nat (length b) = pass_size t
    /\ incl b (dataset (train_loader t))
    /\ (NoDup (dataset (train_loader t)) -> NoDup b)
    /\ steady_source (set_batch_iter (reset_batch_iter t) rest).
Proof.
  intros (Hpos & Hbs & Hne & Hperm & Hpend).
  destruct (iter_first_steady (train_loader t) (iters_made t))
    as (b & rest & Hi & Hb & Hall); try assumption.
  - rewrite Hbs. exact Hpos.
  - apply Hperm.
  - rewrite Hbs in Hb, Hall. fold (pass_size t) in Hb, Hall.
    inversion Hall as [|c cs (_ & Hincl & Hndb) Hrest]; subst.
    exists b, rest. simpl. split; [exact Hi|]. split; [exact Hb|].
    split; [exact Hincl|]. split; [exact Hndb|].
    unfold steady_source; simpl. repeat split; assumption.
Qed.

Lemma train_loop_steady (t : Trainer A) :
  steady_source t ->
  exists b t',
    train_loop t = Ok (b, t')
    /\ Z.of_nat (length b) = pass_size t
    /\ incl b (dataset (train_loader t))
    /\ (NoDup (dataset (train_loader t)) -> NoDup b)
    /\ config t' = config t /\ train_loader t' = train_loader t
    /\ steady_source t'.
Proof.
  intros Hinv. unfold train_loop.
  destruct (batch_iter t) as [|images it] eqn:Hit; simpl.
  - unfold on_stop_iteration.
    destruct (reset_batch_iter_steady t Hinv)
      as (b & rest & Hi & Hb & Hincl & Hnd & Hf).
    rewrite Hi. simpl. exists b, (set_batch_iter (reset_batch_iter t) rest).
    split; [reflexivity|]. repeat (split; [assumption|]).
    split; [reflexivity|]. split; [reflexivity|exact Hf].
  - assert (Hinv1 : steady_source (set_batch_iter t it)).
    { destruct Hinv as (Hpos & Hbs & Hne & Hperm & Hpend).
      unfold steady_source; simpl. repeat split; try assumption.
      rewrite Hit in Hpend. inversion Hpend; assumption. }
    destruct (Z.ltb_spec (Z.of_nat (length images)) (batch_size (config t)))
      as [Hshort|Hfull].
    + destruct (reset_batch_iter_steady _ Hinv1)
        as (b & rest & Hi & Hb & Hincl & Hnd & Hf).
      simpl in Hi, Hb, Hincl, Hnd. rewrite Hi. simpl.
      exists b, (set_batch_iter (reset_batch_iter (set_batch_iter t it)) rest).
      split; [reflexivity|]. repeat (split; [assumption|]).
      split; [reflexivity|]. split; [reflexivity|exact Hf].
    + exists images, (set_batch_iter t it).
      destruct Hinv as (_ & _ & _ & _ & Hpend).
      rewrite Hit in Hpend. inversion Hpend as [|c cs (Hl & Hi & Hn) _]; subst.
      split; [reflexivity|]. split; [unfold pass_size in *; lia|].
      repeat (split; [assumption|]).
      split; [reflexivity|]. split; [reflexivity|exact Hinv1].
Qed.

Lemma train_loops_steady (n : nat) (t : Trainer A) :
  steady_source t ->
  exists bs t',
    train_loops n t = Ok (bs, t')
    /\ length bs = n
    /\ Forall (fun b => Z.of_nat (length b) = pass_size t
                        /\ incl b (dataset (train_loader t))
                        /\ (NoDup (dataset (train_loader t)) -> NoDup b)) bs.
Proof.
  revert t. induction n as [|n IH]; intros t Hinv; simpl.
  - exists [], t. repeat split. constructor.
  - destruct (train_loop_steady t Hinv)
      as (b & t1 & Hl & Hb & Hincl & Hnd & Hc & Htl & Hinv1).
    destruct (IH t1 Hinv1) as (bs & t2 & Hls & Hn & Hall).
    rewrite Hl. simpl. rewrite Hls. simpl.
    exists (b :: bs), t2. split; [reflexivity|].
    split; [simpl; congruence|].
    constructor; [repeat split; assumption|].
    unfold pass_size in *. rewrite Hc, Htl in Hall. exact Hall.
Qed.

Lemma new_trainer_steady (cfg : TrainConfig) (train_ds eval_ds : list A)
    (sampler : nat -> list A -> list A) :
  (forall k, Permutation (sampler k train_ds) train_ds) ->
  (0 < batch_size cfg)%Z -> train_ds <> [] ->
  exists t0,
    new_trainer cfg train_ds eval_ds sampler = Ok t0
    /\ config t0 = cfg /\ dataset (train_loader t0) = train_ds
    /\ steady_source t0.
Proof.
  intros Hperm Hpos Hne. unfold new_trainer, new_shuffled_loader, new_loader.
  destruct train_ds as [|x0 train_ds0] eqn:Eds; [contradiction|].
  rewrite <- Eds in *. clear Eds.
  destruct (Z.leb_spec (batch_size cfg) 0) as [H|_]; [lia|]. simpl.
  eexists. split; [reflexivity|]. simpl.
  split; [reflexivity|]. split; [reflexivity|].
  unfold steady_source; simpl. repeat split; try assumption.
  destruct (iter_first_steady
              {| dataset := train_ds; loader_batch_size := batch_size cfg;
                 shuffle := sampler |} 0)
    as (b & rest & Hi & _ & Hall); simpl; try assumption; [apply Hperm|].
  rewrite Hi. exact Hall.
Qed.

(** X5: over any non-empty training split, no call ever raises, and every
    call feeds forward exactly [min(batch_size, len(split))] samples: a
    split smaller than a batch is fed forward whole, every time. *)
Theorem train_loop_feeds_min (cfg : TrainConfig) (train_ds eval_ds : list A)
    (sampler : nat -> list A -> list A) (n : nat) :
  (forall k, Permutation (sampler k train_ds) train_ds) ->
  (0 < batch_size cfg)%Z -> train_ds <> [] ->
  exists t0 bs t',
    new_trainer cfg train_ds eval_ds sampler = Ok t0
    /\ train_loops n t0 = Ok (bs, t')
    /\ length bs = n
    /\ Forall (fun b => Z.of_nat (length b)
                        = Z.min (batch_size cfg) (Z.of_nat (length train_ds)))
              bs.
Proof.
  intros Hperm Hpos Hne.
  destruct (new_trainer_steady cfg train_ds eval_ds sampler)
    as (t0 & Ht0 & Hc & Hd & Hinv); try assumption.
  destruct (train_loops_steady n t0 Hinv) as (bs & t' & Hl & Hn & Hall).
  exists t0, bs, t'. repeat (split; [assumption|]).
  eapply Forall_impl; [|exact Hall].
  intros b (Hb & _). unfold pass_size in Hb. rewrite Hc, Hd in Hb. exact Hb.
Qed.

(** X6: every batch fed forward consists of samples of the training
    split, and holds no sample twice when the split holds none twice. *)
Theorem train_loop_feeds_split (cfg : TrainConfig) (train_ds eval_ds : list A)
    (sampler : nat -> list A -> list A) (n : nat) :
  (forall k, Permutation (sampler k train_ds) train_ds) ->
  (0 < batch_size cfg)%Z -> train_ds <> [] ->
  exists t0 bs t',
    new_trainer cfg train_ds eval_ds sampler = Ok t0
    /\ train_loops n t0 = Ok (bs, t')
    /\ Forall (fun b => incl b train_ds /\ (NoDup train_ds -> NoDup b)) bs.
Proof.
  intros Hperm Hpos Hne.
  destruct (new_trainer_steady cfg train_ds eval_ds sampler)
    as (t0 & Ht0 & Hc & Hd & Hinv); try assumption.
  destruct (train_loops_steady n t0 Hinv) as (bs & t' & Hl & Hn & Hall).
  exists t0, bs, t'. repeat (split; [assumption|]).
  eapply Forall_impl; [|exact Hall].
  intros b (_ & Hi & Hn'). rewrite Hd in Hi, Hn'. split; assumption.
Qed.

End BatchSourceMore.

(** ** Evaluation *)

Section EvaluationMore.

Context {A : Type}.

Lemma chunks_length (b : nat) :
  (0 < b)%nat ->
  forall fuel (l : list A),
    (length l <= fuel)%nat ->
    length (chunks fuel b l) = ((length l + b - 1) / b)%nat.
Proof.
  intros Hb. induction fuel as [|fuel IH]; intros l Hl.
  - destruct l; [|simpl in Hl; lia]. simpl.
    symmetry. apply Nat.div_small. lia.
  - destruct l as [|x l].
    + simpl. symmetry. apply Nat.div_small. lia.
    + simpl chunks. simpl length at 1. rewrite IH.
      2:{ rewrite length_skipn. simpl length in *. lia. }
      rewrite length_skipn. set (n := length (x :: l)).
      assert (Hn : (1 <= n)%nat) by (unfold n; simpl; lia).
      replace (n + b - 1)%nat with ((n - 1) + 1 * b)%nat by lia.
      rewrite Nat.div_add by lia.
      destruct (Nat.le_gt_cases b n) as [Hle|Hgt].
      * replace (n - b + b - 1)%nat with (n - 1)%nat by lia. lia.
      * rewrite (Nat.div_small (n - b + b - 1)) by lia.
        rewrite (Nat.div_small (n - 1)) by lia. reflexivity.
Qed.

(** [len(loader)] is the number of batches an iterator yields. *)
Lemma len_iter (ld : DataLoader A) (k : nat) :
  (0 < loader_batch_size ld)%Z ->
  length (shuffle ld k (dataset ld)) = length (dataset ld) ->
  Z.of_nat (length (iter ld k)) = len ld.
Proof.
  intros Hpos Hlen. unfold iter, len. cbv zeta.
  rewrite chunks_length by lia. rewrite Hlen.
  rewrite Nat2Z.inj_div, Nat2Z.inj_sub, Nat2Z.inj_add by lia.
  rewrite Z2Nat.id by lia. reflexivity.
Qed.

Lemma new_trainer_eval_loader (cfg : TrainConfig) (train_ds eval_ds : list A)
    (sampler : nat -> list A -> list A) (t : Trainer A) :
  new_trainer cfg train_ds eval_ds sampler = Ok t ->
  (0 < batch_size cfg)%Z
  /\ eval_loader t = {| dataset := eval_ds;
                        loader_batch_size := batch_size cfg;
                        shuffle := no_shuffle |}.
Proof.
  unfold new_trainer, new_shuffled_loader, new_loader.
  destruct train_ds as [|x0 train_ds0]; [discriminate|].
  destruct (Z.leb_spec (batch_size cfg) 0) as [H|H]; [discriminate|].
  simpl. intros E. injection E as <-. split; [exact H|reflexivity].
Qed.

Lemma correct_sum_bounds (i : nat) (predict : list nat) :
  (0 <= correct_sum i predict <= Z.of_nat (length predict))%Z.
Proof.
  revert i. induction predict as [|p ps IH]; intros i; simpl correct_sum.
  - simpl. lia.
  - specialize (IH (S i)). simpl length.
    destruct (Nat.eqb p i); lia.
Qed.

Lemma predict_rows_raises (logits_image : list (list Q)) (e : exn) :
  predict_rows logits_image = Raise e -> e = IndexError.
Proof.
  induction logits_image as [|row rows IH]; simpl; [discriminate|].
  destruct row as [|x row]; simpl.
  - intros H. injection H as <-. reflexivity.
  - destruct (predict_rows rows) as [ps|e']; simpl; [discriminate|].
    intros H. injection H as <-. apply IH. reflexivity.
Qed.

Lemma batch_accuracy_raises (logits_image : list (list Q)) (e : exn) :
  batch_accuracy logits_image = Raise e ->
  e = IndexError \/ e = ZeroDivisionError.
Proof.
  unfold batch_accuracy.
  destruct (predict_rows logits_image) as [ps|e'] eqn:Hp; simpl.
  - destruct (Z.of_nat (length ps) =? 0)%Z; [|discriminate].
    intros H. injection H as <-. right. reflexivity.
  - intros H. injection H as <-. left.
    apply (predict_rows_raises logits_image). exact Hp.
Qed.

Lemma batch_accuracy_bounds (logits_image : list (list Q)) (a : Q) :
  batch_accuracy logits_image = Ok a -> 0 <= a <= 1.
Proof.
  unfold batch_accuracy.
  destruct (predict_rows logits_image) as [ps|e]; simpl; [|discriminate].
  destruct (Z.eqb_spec (Z.of_nat (length ps)) 0) as [|Hne]; [discriminate|].
  intros H. injection H as <-.
  pose proof (correct_sum_bounds 0 ps) as Hc.
  destruct (Z.of_nat (length ps)) as [|p|p] eqn:Hs; try lia.
  unfold Qdiv, Qinv, Qmult, Qle, inject_Z; simpl. split; nia.
Qed.

(** The loop reads the model on its first [n] batches only, and adds a
    number between 0 and 1 to the accuracy total per round. *)
Lemma evaluate_batches_ext (n : nat) (model model' : Model)
    (it : list (list A)) (total_loss sum_accuracy : Q) :
  (forall b, In b (firstn n it) -> model b = model' b) ->
  evaluate_batches n model it total_loss sum_accuracy
  = evaluate_batches n model' it total_loss sum_accuracy.
Proof.
  revert it total_loss sum_accuracy.
  induction n as [|n IH]; intros it tl sa H; simpl; [reflexivity|].
  destruct it as [|b it]; simpl; [reflexivity|].
  rewrite <- (H b) by (simpl; left; reflexivity).
  destruct (model b) as [logits loss].
  destruct (batch_accuracy logits) as [a|e]; simpl; [|reflexivity].
  apply IH. intros c Hc. apply H. simpl. right. exact Hc.
Qed.

Lemma evaluate_batches_accuracy (n : nat) (model : Model)
    (it : list (list A)) (total_loss sum_accuracy total_loss' sum_accuracy' : Q) :
  evaluate_batches n model it total_loss sum_accuracy
  = Ok (total_loss', sum_accuracy') ->
  sum_accuracy <= sum_accuracy'
  /\ sum_accuracy' <= sum_accuracy + inject_Z (Z.of_nat n).
Proof.
  revert it total_loss sum_accuracy.
  induction n as [|n IH]; intros it tl sa; simpl evaluate_batches.
  - intros H. injection H as _ <-.
    change (inject_Z (Z.of_nat 0)) with 0. split; Lqa.lra.
  - destruct it as [|b it]; simpl; [discriminate|].
    destruct (model b) as [logits loss].
    destruct (batch_accuracy logits) as [a|e] eqn:Ha; simpl; [|discriminate].
    intros H. apply IH in H. apply batch_accuracy_bounds in Ha.
    change (Z.pos (Pos.of_succ_nat n)) with (Z.of_nat (S n)).
    rewrite Nat2Z.inj_succ. unfold Z.succ. rewrite inject_Z_plus.
    change (inject_Z 1) with 1. Lqa.lra.
Qed.

Lemma evaluate_batches_no_stop (n : nat) (model : Model)
    (it : list (list A)) (total_loss sum_accuracy : Q) :
  (n <= length it)%nat ->
  evaluate_batches n model it total_loss sum_accuracy <> Raise StopIteration.
Proof.
  revert it total_loss sum_accuracy.
  induction n as [|n IH]; intros it tl sa Hn; simpl; [discriminate|].
  destruct it as [|b it]; simpl in *; [lia|].
  destruct (model b) as [logits loss].
  destruct (batch_accuracy logits) as [a|e] eqn:Ha; simpl.
  - apply IH. lia.
  - intros H. injection H as ->.
    apply batch_accuracy_raises in Ha. destruct Ha; discriminate.
Qed.

(** X8: an evaluation split of at most one batch is never shown to the
    model: the evaluation of an empty split raises [ZeroDivisionError], and
    the evaluation of a split of one to [batch_size] samples returns the
    averages (0, 0), whatever the model. *)
Theorem evaluate_single_batch (cfg : TrainConfig) (train_ds eval_ds : list A)
    (sampler : nat -> list A -> list A) (t : Trainer A) (model : Model) :
  new_trainer cfg train_ds eval_ds sampler = Ok t ->
  (Z.of_nat (length eval_ds) <= batch_size cfg)%Z ->
  (eval_ds = [] -> evaluate t model = Raise ZeroDivisionError)
  /\ (eval_ds <> [] -> evaluate t model = Ok (0, 0)).
Proof.
  intros Ht Hsmall.
  destruct (new_trainer_eval_loader _ _ _ _ _ Ht) as [Hpos Hel].
  unfold evaluate. cbv zeta. rewrite Hel. unfold len. simpl.
  split.
  - intros ->. simpl. rewrite Z.div_small by lia. reflexivity.
  - intros Hne.
    assert (Hn : (0 < length eval_ds)%nat)
      by (destruct eval_ds; [contradiction|simpl; lia]).
    assert (Hd : ((Z.of_nat (length eval_ds) + batch_size cfg - 1)
                  / batch_size cfg = 1)%Z).
    { symmetry.
      apply (Z.div_unique_pos _ _ 1 (Z.of_nat (length eval_ds) - 1)); lia. }
    rewrite Hd. reflexivity.
Qed.

(** X9: the average accuracy an evaluation returns is at least 0 and
    strictly below 1: the accuracies of [len - 1] batches are divided by
    [len]. *)
Theorem evaluate_accuracy_below_one (t : Trainer A) (model : Model)
    (avg_loss avg_accuracy : Q) :
  evaluate t model = Ok (avg_loss, avg_accuracy) ->
  0 <= avg_accuracy /\ avg_accuracy < 1.
Proof.
  unfold evaluate. cbv zeta.
  destruct (evaluate_batches _ _ _ _ _) as [[tl sa]|e] eqn:Hloop; simpl;
    [|discriminate].
  destruct (Z.eqb_spec (len (eval_loader t)) 0) as [|Hne]; [discriminate|].
  intros H. injection H as _ <-.
  apply evaluate_batches_accuracy in Hloop. destruct Hloop as [Hlo Hhi].
  set (n := len (eval_loader t)) in *. clearbody n.
  destruct (Z_lt_le_dec 0 n) as [Hpos|Hneg].
  - rewrite Z2Nat.id in Hhi by lia.
    assert (HnQ : 0 < inject_Z n)
      by (change 0 with (inject_Z 0); rewrite <- Zlt_Qlt; exact Hpos).
    assert (Hsa : sa < inject_Z n).
    { assert (Hlt : inject_Z (n - 1) < inject_Z n)
        by (rewrite <- Zlt_Qlt; lia).
      revert Hhi Hlt. generalize (inject_Z (n - 1)), (inject_Z n).
      intros q q' Hhi Hlt. Lqa.lra. }
    split.
    + apply Qle_shift_div_l; [exact HnQ|]. Lqa.lra.
    + apply Qlt_shift_div_r; [exact HnQ|]. Lqa.lra.
  - replace (Z.to_nat (n - 1)) with 0%nat in Hhi by lia.
    change (inject_Z (Z.of_nat 0)) with 0 in Hhi.
    assert (Hsa : sa == 0) by Lqa.lra.
    rewrite Hsa. unfold Qdiv. rewrite Qmult_0_l. split; Lqa.lra.
Qed.

(** X10: an evaluation never runs out of batches: it does not raise
    [StopIteration]. *)
Theorem evaluate_no_stop_iteration (cfg : TrainConfig)
    (train_ds eval_ds : list A) (sampler : nat -> list A -> list A)
    (t : Trainer A) (model : Model) :
  new_trainer cfg train_ds eval_ds sampler = Ok t ->
  evaluate t model <> Raise StopIteration.
Proof.
  intros Ht.
  destruct (new_trainer_eval_loader _ _ _ _ _ Ht) as [Hpos Hel].
  assert (Hlen : Z.of_nat (length (iter (eval_loader t) 0))
                 = len (eval_loader t)).
  { apply len_iter; rewrite Hel; [exact Hpos|reflexivity]. }
  unfold evaluate. cbv zeta.
  destruct (evaluate_batches _ _ _ _ _) as [[tl sa]|e] eqn:Hloop; simpl.
  - destruct (len (eval_loader t) =? 0)%Z; discriminate.
  - intros H. injection H as ->. revert Hloop.
    apply evaluate_batches_no_stop. lia.
Qed.

(** X11: the last batch of the evaluation split is skipped: two models
    that agree on every batch but the last get the same evaluation. *)
Theorem evaluate_skips_last_batch (cfg : TrainConfig)
    (train_ds eval_ds : list A) (sampler : nat -> list A -> list A)
    (t : Trainer A) (model model' : Model) :
  new_trainer cfg train_ds eval_ds sampler = Ok t ->
  (forall b, In b (removelast (iter (eval_loader t) 0)) ->
             model b = model' b) ->
  evaluate t model = evaluate t model'.
Proof.
  intros Ht Hagree.
  destruct (new_trainer_eval_loader _ _ _ _ _ Ht) as [Hpos Hel].
  assert (Hlen : Z.of_nat (length (iter (eval_loader t) 0))
                 = len (eval_loader t)).
  { apply len_iter; rewrite Hel; [exact Hpos|reflexivity]. }
  unfold evaluate. cbv zeta.
  rewrite (evaluate_batches_ext _ model model'); [reflexivity|].
  intros b Hb. apply Hagree.
  rewrite removelast_firstn_len.
  replace (Nat.pred (length (iter (eval_loader t) 0)))
    with (Z.to_nat (len (eval_loader t) - 1)) by lia.
  exact Hb.
Qed.

End EvaluationMore.

(** Witness of [evaluate_single_batch]: three evaluation samples, the
    default batch size. *)
Lemma evaluate_single_batch_witness :
  exists t,
    new_trainer default_config [0; 1; 2]%nat [7; 8; 9]%nat no_shuffle = Ok t
    /\ evaluate t perfect_model = Ok (0, 0).
Proof.
  eexists. split; [reflexivity|].
  apply (evaluate_single_batch default_config [0; 1; 2]%nat [7; 8; 9]%nat
           no_shuffle _ perfect_model).
  - reflexivity.
  - simpl. lia.
  - discriminate.
Defined.

(** Witness of [evaluate_accuracy_below_one]: two batches, a model that is
    right on every sample. *)
Lemma evaluate_accuracy_below_one_witness :
  exists t avg_loss avg_accuracy,
    new_trainer (small_config 2 10) [0; 1; 2; 3]%nat [0; 1; 2; 3]%nat
      no_shuffle = Ok t
    /\ evaluate t perfect_model = Ok (avg_loss, avg_accuracy)
    /\ 0 <= avg_accuracy /\ avg_accuracy < 1.
Proof.
  do 3 eexists. split; [reflexivity|].
  match goal with |- evaluate ?t _ = _ /\ _ => pose (t0 := t) end.
  split; [reflexivity|].
  eapply (evaluate_accuracy_below_one t0 perfect_model). reflexivity.
Defined.

(** Witness of [evaluate_no_stop_iteration]. *)
Lemma evaluate_no_stop_iteration_witness :
  exists t,
    new_trainer (small_config 2 10) [0; 1; 2; 3]%nat [0; 1; 2; 3]%nat
      no_shuffle = Ok t
    /\ evaluate t perfect_model <> Raise StopIteration.
Proof.
  eexists. split; [reflexivity|].
  apply (evaluate_no_stop_iteration (small_config 2 10) [0; 1; 2; 3]%nat
           [0; 1; 2; 3]%nat no_shuffle _ perfect_model).
  reflexivity.
Defined.

(** Witness of [evaluate_skips_last_batch]: the models differ on the last
    batch, [[2; 3]]. *)
Lemma evaluate_skips_last_batch_witness :
  exists t,
    new_trainer (small_config 2 10) [0; 1; 2; 3]%nat [0; 1; 2; 3]%nat
      no_shuffle = Ok t
    /\ perfect_model [2; 3]%nat <> last_batch_model [2; 3]%nat
    /\ evaluate t perfect_model = evaluate t last_batch_model.
Proof.
  eexists. split; [reflexivity|]. split; [discriminate|].
  apply (evaluate_skips_last_batch (small_config 2 10) [0; 1; 2; 3]%nat
           [0; 1; 2; 3]%nat no_shuffle _ perfect_model last_batch_model).
  - reflexivity.
  - intros b Hb. simpl in Hb. destruct Hb as [<-|[]]. reflexivity.
Defined.

(** ** Batch accuracy *)

Lemma Qlt_bool_iff (x y : Q) : Qlt_bool x y = true <-> x < y.
Proof.
  unfold Qlt_bool. rewrite negb_true_iff. split.
  - intros H. apply Qnot_le_lt. intros Hle.
    apply Qle_bool_iff in Hle. congruence.
  - intros H. destruct (Qle_bool y x) eqn:E; [|reflexivity].
    apply Qle_bool_iff in E. exfalso. exact (Qlt_not_le _ _ H E).
Qed.

(** The scan keeps the first maximum of what it has seen. *)
Lemma argmax_from_spec (row pre : list Q) (best_i : nat) (best : Q) :
  (best_i < length pre)%nat -> nth best_i pre 0 = best ->
  (forall j, (j < length pre)%nat -> nth j pre 0 <= best) ->
  (forall j, (j < best_i)%nat -> nth j pre 0 < best) ->
  let k := argmax_from best_i best (length pre) row in
  (k < length (pre ++ row))%nat
  /\ (forall j, (j < length (pre ++ row))%nat ->
                nth j (pre ++ row) 0 <= nth k (pre ++ row) 0)
  /\ (forall j, (j < k)%nat -> nth j (pre ++ row) 0 < nth k (pre ++ row) 0).
Proof.
  revert pre best_i best.
  induction row as [|x row IH]; intros pre best_i best Hi Hb Hmax Hfirst.
  - simpl. rewrite app_nil_r. rewrite Hb. repeat split; assumption.
  - simpl argmax_from.
    replace (pre ++ x :: row) with ((pre ++ [x]) ++ row)
      by (rewrite <- app_assoc; reflexivity).
    replace (S (length pre)) with (length (pre ++ [x]))
      by (rewrite length_app; simpl; lia).
    assert (Hx : nth (length pre) (pre ++ [x]) 0 = x) by apply nth_middle.
    destruct (Qlt_bool best x) eqn:E.
    + apply Qlt_bool_iff in E. apply IH.
      * rewrite length_app. simpl. lia.
      * exact Hx.
      * intros j Hj. rewrite length_app in Hj. simpl in Hj.
        destruct (Nat.eq_dec j (length pre)) as [->|Hne].
        -- rewrite Hx. apply Qle_refl.
        -- rewrite app_nth1 by lia. apply Qlt_le_weak.
           eapply Qle_lt_trans; [apply Hmax; lia|exact E].
      * intros j Hj. rewrite app_nth1 by lia.
        eapply Qle_lt_trans; [apply Hmax; lia|exact E].
    + assert (Hle : x <= best).
      { apply Qnot_lt_le. intros H. apply Qlt_bool_iff in H. congruence. }
      apply IH.
      * rewrite length_app. simpl. lia.
      * rewrite app_nth1 by lia. exact Hb.
      * intros j Hj. rewrite length_app in Hj. simpl in Hj.
        destruct (Nat.eq_dec j (length pre)) as [->|Hne].
        -- rewrite Hx. exact Hle.
        -- rewrite app_nth1 by lia. apply Hmax. lia.
      * intros j Hj. rewrite app_nth1 by lia. apply Hfirst. exact Hj.
Qed.

Lemma argmax_peak (row : list Q) (i : nat) :
  peaks_at row i -> argmax row = Ok i.
Proof.
  intros [Hi Hpeak]. destruct row as [|x row]; [simpl in Hi; lia|].
  unfold argmax. f_equal.
  destruct (argmax_from_spec row [x] 0 x) as (Hk & Hmax & _).
  - simpl. lia.
  - reflexivity.
  - intros j Hj. simpl in Hj. replace j with 0%nat by lia. apply Qle_refl.
  - intros j Hj. lia.
  - simpl length in Hk, Hmax. simpl app in Hk, Hmax.
    set (k := argmax_from 0 x 1 row) in *.
    destruct (Nat.eq_dec k i) as [E|E]; [exact E|].
    exfalso. apply (Qlt_not_le _ _ (Hpeak k Hk E)). apply Hmax. exact Hi.
Qed.

Lemma predict_rows_diagonal (rows : list (list Q)) (start : nat) :
  diagonal_from start rows ->
  predict_rows rows = Ok (seq start (length rows)).
Proof.
  revert start. induction rows as [|row rows IH]; intros start H.
  - reflexivity.
  - simpl. rewrite (argmax_peak row start).
    2:{ specialize (H 0%nat). simpl in H. rewrite Nat.add_0_r in H.
        apply H. lia. }
    simpl. rewrite (IH (S start)); [reflexivity|].
    intros k Hk. specialize (H (S k)). simpl in H.
    rewrite Nat.add_succ_r in H. apply H. lia.
Qed.

Lemma correct_sum_seq (n i : nat) :
  correct_sum i (seq i n) = Z.of_nat n.
Proof.
  revert i. induction n as [|n IH]; intros i; [reflexivity|].
  simpl seq. simpl correct_sum. rewrite Nat.eqb_refl, IH. lia.
Qed.

(** X12: the accuracy of a batch is a number between 0 and 1, and it is 1
    when every row of the logits has its only maximum on the diagonal. *)
Theorem batch_accuracy_diagonal (logits_image : list (list Q)) :
  (forall a, batch_accuracy logits_image = Ok a -> 0 <= a <= 1)
  /\ (logits_image <> [] -> diagonal_from 0 logits_image ->
      exists a, batch_accuracy logits_image = Ok a /\ a == 1).
Proof.
  split; [intros a; apply batch_accuracy_bounds|].
  intros Hne Hdiag. unfold batch_accuracy.
  rewrite (predict_rows_diagonal _ 0 Hdiag). simpl.
  rewrite length_seq, correct_sum_seq.
  destruct (Z.eqb_spec (Z.of_nat (length logits_image)) 0) as [E|E].
  - destruct logits_image; [contradiction|simpl in E; lia].
  - eexists. split; [reflexivity|].
    apply Qmult_inv_r. unfold Qeq, inject_Z. simpl. lia.
Qed.

(** Witness of [batch_accuracy_diagonal]: a batch of three. *)
Lemma batch_accuracy_diagonal_witness :
  (forall a, batch_accuracy [[3; 1; 2]; [0; 5; 4]; [1; 1; 2]] = Ok a ->
             0 <= a <= 1)
  /\ exists a, batch_accuracy [[3; 1; 2]; [0; 5; 4]; [1; 1; 2]] = Ok a
               /\ a == 1.
Proof.
  destruct (batch_accuracy_diagonal [[3; 1; 2]; [0; 5; 4]; [1; 1; 2]])
    as [Hrange Hdiag].
  split; [exact Hrange|]. apply Hdiag; [discriminate|].
  intros k Hk. simpl in Hk.
  assert (Hc : (k = 0 \/ k = 1 \/ k = 2)%nat) by lia.
  destruct Hc as [-> | [-> | ->]]; (split; [simpl; lia|]);
    intros j Hj Hne; simpl in Hj;
    assert (Hj' : (j = 0 \/ j = 1 \/ j = 2)%nat) by lia;
    destruct Hj' as [-> | [-> | ->]]; try contradiction; reflexivity.
Defined.

Lemma alternating_perm (l : list nat) (k : nat) :
  Permutation (alternating k l) l.
Proof.
  unfold alternating. destruct (Nat.even k).
  - apply Permutation_refl.
  - apply Permutation_sym, Permutation_rev.
Qed.

(** Witness of [train_loop_feeds_min]: three samples, the default batch
    size, four calls. *)
Lemma train_loop_feeds_min_witness :
  exists t0 bs t',
    new_trainer default_config [0; 1; 2]%nat [] alternating = Ok t0
    /\ train_loops 4 t0 = Ok (bs, t')
    /\ length bs = 4%nat
    /\ Forall (fun b => Z.of_nat (length b)
                        = Z.min (batch_size default_config)
                                (Z.of_nat (length [0; 1; 2]%nat)))
              bs.
Proof.
  apply (train_loop_feeds_min default_config [0; 1; 2]%nat [] alternating 4).
  - intros k. apply alternating_perm.
  - simpl. lia.
  - discriminate.
Defined.

(** Witness of [train_loop_feeds_split]: five samples in batches of two. *)
Lemma train_loop_feeds_split_witness :
  exists t0 bs t',
    new_trainer (small_config 2 10) [0; 1; 2; 3; 4]%nat [] alternating = Ok t0
    /\ train_loops 7 t0 = Ok (bs, t')
    /\ Forall (fun b => incl b [0; 1; 2; 3; 4]%nat
                        /\ (NoDup [0; 1; 2; 3; 4]%nat -> NoDup b)) bs.
Proof.
  apply (train_loop_feeds_split (small_config 2 10) [0; 1; 2; 3; 4]%nat []
           alternating 7).
  - intros k. apply alternating_perm.
  - simpl. lia.
  - discriminate.
Defined.

(** ** The training loop *)

(** What [get_lr] can raise at iteration 0. *)
Lemma get_lr_raises_at_start (cfg : TrainConfig) (e : exn) :
  get_lr cfg 0 = Raise e ->
  (e = OverflowError
   /\ (0 < warmup_iters cfg)%Z /\ float_overflows (warmup_iters cfg) = true)
  \/ e = ZeroDivisionError.
Proof.
  unfold get_lr.
  destruct (Z.ltb_spec 0 (warmup_iters cfg)) as [Hw|Hw].
  - rewrite (float_overflows_small 0) by (vm_compute; reflexivity).
    destruct (float_overflows (warmup_iters cfg)).
    + intros H. injection H as <-. left. tauto.
    + destruct (Z.eqb_spec (warmup_iters cfg) 0); [lia|discriminate].
  - destruct (Z.gtb_spec 0 (lr_decay_iters cfg)) as [Hd|Hd]; [discriminate|].
    destruct (Z.eqb_spec (lr_decay_iters cfg - warmup_iters cfg) 0)
      as [H0|H0].
    + intros H. injection H as <-. right. reflexivity.
    + destruct (decay_ratio_bounds cfg 0) as [Hlo Hhi]; [lia|lia|].
      apply Qle_bool_iff in Hlo. apply Qle_bool_iff in Hhi.
      cbv zeta. rewrite Hlo, Hhi. discriminate.
Qed.

Section TrainLoopMore.

Context {A : Type}.

Variable evaluation : Z -> result (Q * Q).

Lemma train_loop_raises (t : Trainer A) (e : exn) :
  train_loop t = Raise e -> e = StopIteration.
Proof.
  unfold train_loop, on_stop_iteration.
  repeat match goal with
         | |- context [match next ?it with _ => _ end] =>
             destruct (next it) as [[? ?]|]
         | |- context [if ?c then _ else _] => destruct c
         end;
    try discriminate; intros H; injection H as <-; reflexivity.
Qed.

Lemma train_loop_config (t t' : Trainer A) (b : list A) :
  train_loop t = Ok (b, t') -> config t' = config t.
Proof.
  unfold train_loop, on_stop_iteration.
  repeat match goal with
         | |- context [match next ?it with _ => _ end] =>
             destruct (next it) as [[? ?]|]
         | |- context [if ?c then _ else _] => destruct c
         end;
    try discriminate; intros H; injection H as _ <-; reflexivity.
Qed.

(** What one completed round does to the state. *)
Lemma train_iteration_inv (st st' : TrainState A) (i : Z) :
  train_iteration evaluation st i = Ok st' ->
  config (trainer st') = config (trainer st)
  /\ (exists b, train_loop (trainer st) = Ok (b, trainer st'))
  /\ saved st'
     = saved st ++ new_checkpoints (config (trainer st)) evaluation i.
Proof.
  unfold train_iteration, new_checkpoints, py_mod.
  destruct (get_lr _ _) as [r|e]; simpl; [|discriminate].
  destruct (train_loop _) as [[b t1]|e] eqn:Hl; simpl; [|discriminate].
  destruct (log_iters _ =? 0)%Z; simpl; [discriminate|].
  destruct (eval_iters _ =? 0)%Z; simpl; [discriminate|].
  destruct ((i mod eval_iters _ =? 0)%Z && (i >? 0)%Z).
  - destruct (evaluation i) as [[l a]|e]; simpl; [|discriminate].
    destruct (Qlt_bool best_val_accuracy a); intros H; injection H as <-;
      simpl; (split; [eapply train_loop_config; exact Hl|]);
      (split; [exists b; reflexivity|]);
      [reflexivity|rewrite app_nil_r; reflexivity].
  - intros H. injection H as <-. simpl.
    split; [eapply train_loop_config; exact Hl|].
    split; [exists b; reflexivity|rewrite app_nil_r; reflexivity].
Qed.

Lemma train_from_inv (n : nat) (i : Z) (st st' : TrainState A) :
  train_from evaluation n i st = Ok st' ->
  config (trainer st') = config (trainer st)
  /\ (exists bs, train_loops n (trainer st) = Ok (bs, trainer st'))
  /\ saved st'
     = saved st ++ checkpoints_from (config (trainer st)) evaluation n i.
Proof.
  revert i st. induction n as [|n IH]; intros i st; simpl.
  - intros H. injection H as <-. split; [reflexivity|].
    split; [exists []; reflexivity|rewrite app_nil_r; reflexivity].
  - destruct (train_iteration evaluation st i) as [st1|e] eqn:Hstep; simpl;
      [|discriminate].
    intros H. apply IH in H. destruct H as (Hc & [bs Hbs] & Hs).
    apply train_iteration_inv in Hstep.
    destruct Hstep as (Hc1 & [b Hb] & Hs1).
    split; [congruence|]. split.
    + exists (b :: bs). rewrite Hb. simpl. rewrite Hbs. reflexivity.
    + rewrite Hs, Hs1, Hc1, <- app_assoc. reflexivity.
Qed.

Lemma in_new_checkpoints (cfg : TrainConfig) (i : Z) (c : Checkpoint) :
  In c (new_checkpoints cfg evaluation i)
  <-> ckpt_iteration c = i /\ (0 < i)%Z /\ (i mod eval_iters cfg = 0)%Z
      /\ exists avg_loss,
           evaluation i = Ok (avg_loss, eval_accuracy c)
           /\ best_val_accuracy < eval_accuracy c.
Proof.
  unfold new_checkpoints.
  destruct (Z.eqb_spec (i mod eval_iters cfg) 0) as [Hm|Hm];
    destruct (Z.gtb_spec i 0) as [Hp|Hp]; simpl;
    try (split; [intros []|intros (_ & H1 & H2 & _); lia]).
  destruct (evaluation i) as [[l a]|e].
  - destruct (Qlt_bool best_val_accuracy a) eqn:E.
    + apply Qlt_bool_iff in E. split.
      * intros [<-|[]]. simpl. repeat split; try assumption; try lia.
        exists l. split; [reflexivity|exact E].
      * intros (Hi & _ & _ & l' & Hev & _). left.
        injection Hev as _ Ha. destruct c as [ci ca]. simpl in *.
        congruence.
    + split; [intros []|].
      intros (_ & _ & _ & l' & Hev & Hlt). injection Hev as _ Ha.
      rewrite <- Ha in Hlt. apply Qlt_bool_iff in Hlt. congruence.
  - split; [intros []|]. intros (_ & _ & _ & l' & Hev & _). discriminate.
Qed.

Lemma in_checkpoints_from (cfg : TrainConfig) (n : nat) (i : Z)
    (c : Checkpoint) :
  In c (checkpoints_from cfg evaluation n i)
  <-> (i <= ckpt_iteration c < i + Z.of_nat n)%Z
      /\ (0 < ckpt_iteration c)%Z
      /\ (ckpt_iteration c mod eval_iters cfg = 0)%Z
      /\ exists avg_loss,
           evaluation (ckpt_iteration c) = Ok (avg_loss, eval_accuracy c)
           /\ best_val_accuracy < eval_accuracy c.
Proof.
  revert i. induction n as [|n IH]; intros i.
  - simpl. split; [intros []|intros (H & _); lia].
  - simpl checkpoints_from. rewrite in_app_iff, in_new_checkpoints, IH.
    split.
    + intros [(Hi & Hp & Hm & Hev)|(Hr & Hp & Hm & Hev)].
      * rewrite Hi. repeat split; try assumption; lia.
      * repeat split; try assumption; lia.
    + intros (Hr & Hp & Hm & Hev).
      destruct (Z.eq_dec (ckpt_iteration c) i) as [E|E].
      * left. rewrite E in *. repeat split; assumption.
      * right. repeat split; try assumption; lia.
Qed.

Lemma checkpoints_from_sorted (cfg : TrainConfig) (n : nat) (i : Z) :
  StronglySorted (fun c c' => (ckpt_iteration c < ckpt_iteration c')%Z)
                 (checkpoints_from cfg evaluation n i).
Proof.
  revert i. induction n as [|n IH]; intros i; simpl; [constructor|].
  assert (Hrest : Forall (fun c' => (i < ckpt_iteration c')%Z)
                         (checkpoints_from cfg evaluation n (i + 1))).
  { apply Forall_forall. intros c' Hc'. apply in_checkpoints_from in Hc'.
    lia. }
  unfold new_checkpoints.
  destruct (_ && _); [|apply IH].
  destruct (evaluation i) as [[l a]|e]; [|apply IH].
  destruct (Qlt_bool best_val_accuracy a); [|apply IH].
  simpl. constructor; [apply IH|exact Hrest].
Qed.

(** X13: a run that completes has written a checkpoint for exactly the
    evaluations whose accuracy exceeds 1e-9: a checkpoint of iteration [i]
    and accuracy [a] exists if and only if [i] is a positive multiple of
    [eval_iters] below [max_iters] whose evaluation reported [a], with
    [a > 1e-9]. *)
Theorem train_checkpoints (t : Trainer A) (st : TrainState A)
    (c : Checkpoint) :
  train evaluation t = Ok st ->
  In c (saved st)
  <-> (0 < ckpt_iteration c < max_iters (config t))%Z
      /\ (ckpt_iteration c mod eval_iters (config t) = 0)%Z
      /\ exists avg_loss,
           evaluation (ckpt_iteration c) = Ok (avg_loss, eval_accuracy c)
           /\ best_val_accuracy < eval_accuracy c.
Proof.
  unfold train. intros H. apply train_from_inv in H.
  destruct H as (_ & _ & Hs). simpl in Hs. rewrite Hs.
  rewrite in_checkpoints_from. split.
  - intros (Hr & Hp & Hm & Hev). repeat split; try assumption; lia.
  - intros ((Hp & Hr) & Hm & Hev). repeat split; try assumption; lia.
Qed.

(** X14: the checkpoints of a completed run are written in strictly
    increasing order of iteration, so no checkpoint file is written twice. *)
Theorem train_checkpoints_increasing (t : Trainer A) (st : TrainState A) :
  train evaluation t = Ok st ->
  StronglySorted (fun c c' => (ckpt_iteration c < ckpt_iteration c')%Z)
                 (saved st).
Proof.
  unfold train. intros H. apply train_from_inv in H.
  destruct H as (_ & _ & Hs). simpl in Hs. rewrite Hs.
  apply checkpoints_from_sorted.
Qed.

(** X16: a logging or evaluation cadence of 0 does not switch the feature
    off: a run of at least one iteration raises in its first iteration,
    [ZeroDivisionError] unless the batch source raised [StopIteration]
    before, or the schedule raised [OverflowError] on a warmup horizon too
    large for a double. *)
Theorem train_zero_cadence (t : Trainer A) :
  (0 < max_iters (config t))%Z ->
  log_iters (config t) = 0%Z \/ eval_iters (config t) = 0%Z ->
  train evaluation t = Raise ZeroDivisionError
  \/ train evaluation t = Raise StopIteration
  \/ (train evaluation t = Raise OverflowError
      /\ (0 < warmup_iters (config t))%Z
      /\ float_overflows (warmup_iters (config t)) = true).
Proof.
  intros Hmax Hzero. unfold train.
  destruct (Z.to_nat (max_iters (config t))) as [|n] eqn:Hn; [lia|].
  simpl. unfold train_iteration. simpl.
  destruct (get_lr (config t) 0) as [r|e] eqn:Hlr; simpl.
  - destruct (train_loop t) as [[b t1]|e] eqn:Hl; simpl.
    + unfold py_mod.
      destruct (Z.eqb_spec (log_iters (config t)) 0) as [E|E]; simpl;
        [left; reflexivity|].
      destruct (Z.eqb_spec (eval_iters (config t)) 0) as [E'|E']; simpl;
        [left; reflexivity|].
      destruct Hzero; contradiction.
    + right. left. apply train_loop_raises in Hl. rewrite Hl. reflexivity.
  - apply get_lr_raises_at_start in Hlr.
    destruct Hlr as [(He & Hw & Ho) | He]; rewrite He.
    + right. right. split; [reflexivity|]. split; assumption.
    + left. reflexivity.
Qed.

End TrainLoopMore.

(** Witness of [train_checkpoints]: the evaluation of iteration 1 is
    saved. *)
Lemma train_checkpoints_witness :
  exists t st,
    new_trainer (quick_config 1 1) [0; 1; 2; 3; 4]%nat [] no_shuffle = Ok t
    /\ train quick_evaluation t = Ok st
    /\ (In {| ckpt_iteration := 1; eval_accuracy := 40 # 100 |} (saved st)
        <-> (0 < 1 < max_iters (config t))%Z
            /\ (1 mod eval_iters (config t) = 0)%Z
            /\ exists avg_loss,
                 quick_evaluation 1 = Ok (avg_loss, 40 # 100)
                 /\ best_val_accuracy < 40 # 100).
Proof.
  do 2 eexists. split; [reflexivity|].
  match goal with |- train _ ?t = _ /\ _ => pose (t0 := t) end.
  split; [reflexivity|].
  apply (train_checkpoints quick_evaluation t0 _
           {| ckpt_iteration := 1; eval_accuracy := 40 # 100 |}).
  reflexivity.
Defined.

(** Witness of [train_checkpoints_increasing]: a run of three iterations
    that writes a checkpoint at iteration 1 and another at iteration 2. *)
Lemma train_checkpoints_increasing_witness :
  exists t st,
    new_trainer (quick_config 1 1) [0; 1; 2; 3; 4]%nat [] no_shuffle = Ok t
    /\ train steady_evaluation t = Ok st
    /\ saved st = [ {| ckpt_iteration := 1; eval_accuracy := 40 # 100 |};
                    {| ckpt_iteration := 2; eval_accuracy := 40 # 100 |} ]
    /\ StronglySorted
         (fun c c' => (ckpt_iteration c < ckpt_iteration c')%Z) (saved st).
Proof.
  do 2 eexists. split; [reflexivity|].
  match goal with |- train _ ?t = _ /\ _ => pose (t0 := t) end.
  split; [reflexivity|]. split; [reflexivity|].
  apply (train_checkpoints_increasing steady_evaluation t0). reflexivity.
Defined.

(** Witness of [train_zero_cadence]: a logging cadence of 0. *)
Lemma train_zero_cadence_witness :
  exists t,
    new_trainer (quick_config 0 1) [0; 1; 2; 3; 4]%nat [] no_shuffle = Ok t
    /\ (train quick_evaluation t = Raise ZeroDivisionError
        \/ train quick_evaluation t = Raise StopIteration
        \/ (train quick_evaluation t = Raise OverflowError
            /\ (0 < warmup_iters (config t))%Z
            /\ float_overflows (warmup_iters (config t)) = true)).
Proof.
  eexists. split; [reflexivity|].
  match goal with |- train _ ?t = _ \/ _ => pose (t0 := t) end.
  apply (train_zero_cadence quick_evaluation t0).
  - simpl. lia.
  - left. reflexivity.
Defined.

End TrainMore.

(** * Further properties of tinymm/ALBEF/model.py *)

Module ALBEFMore.

Import ALBEF ALBEFInputs Encoders ALBEFMoreInputs ALBEFProofs.

Local Open Scope R_scope.

(** ** Sums *)

Lemma Rsum_nonneg (l : list nat) (f : nat -> R) :
  (forall i, In i l -> 0 <= f i) -> 0 <= Rsum l f.
Proof.
  unfold Rsum. induction l as [|x l IH]; intros H; simpl.
  - lra.
  - assert (0 <= f x) by (apply H; left; reflexivity).
    assert (0 <= fold_right Rplus 0 (map f l))
      by (apply IH; intros i Hi; apply H; right; exact Hi).
    lra.
Qed.

Lemma Rsum_ge_term (l : list nat) (f : nat -> R) (k : nat) :
  (forall i, In i l -> 0 <= f i) -> In k l -> f k <= Rsum l f.
Proof.
  unfold Rsum. induction l as [|x l IH]; intros H Hk; simpl.
  - destruct Hk.
  - assert (Hx : 0 <= f x) by (apply H; left; reflexivity).
    assert (Hl : 0 <= Rsum l f)
      by (apply Rsum_nonneg; intros i Hi; apply H; right; exact Hi).
    unfold Rsum in Hl. destruct Hk as [->|Hk].
    + lra.
    + assert (f k <= fold_right Rplus 0 (map f l))
        by (apply IH; [intros i Hi; apply H; right; exact Hi|exact Hk]).
      lra.
Qed.


(** ** Losses are not negative *)

Lemma nll_nonneg (x : Matrix) (i : nat) (t : Z) :
  (Z.to_nat t < cols x)%nat -> 0 <= nll x i t.
Proof.
  intros Ht. unfold nll.
  set (f := fun j => exp (at2 x i j)).
  assert (Hpos : forall j, In j (seq 0 (cols x)) -> 0 <= f j)
    by (intros j _; unfold f; apply Rlt_le, exp_pos).
  assert (Hge : f (Z.to_nat t) <= Rsum (seq 0 (cols x)) f)
    by (apply Rsum_ge_term; [exact Hpos|apply in_seq_0; exact Ht]).
  assert (Hln : ln (f (Z.to_nat t)) <= ln (Rsum (seq 0 (cols x)) f)).
  { destruct Hge as [Hlt|Heq].
    - apply Rlt_le, ln_increasing; [apply exp_pos|exact Hlt].
    - rewrite Heq. lra. }
  unfold f in Hln at 1. rewrite ln_exp in Hln. lra.
Qed.

Lemma cross_entropy_nonneg (x : Matrix) (target : IntVector)
    (ignore_index : Z) (v : scalar) :
  cross_entropy x target ignore_index = Ok v -> nonneg v.
Proof.
  unfold cross_entropy.
  destruct (negb (Nat.eqb (rows x) (ilen target))); [discriminate|].
  destruct (forallb _ _) eqn:Hok; simpl; [|discriminate].
  destruct (kept_rows target ignore_index (rows x)) as [|k ks] eqn:Hk.
  - intros H. injection H as <-. exact I.
  - intros H. injection H as <-. unfold nonneg.
    apply Rmult_le_pos.
    + apply Rsum_nonneg. intros i Hi.
      rewrite <- Hk in Hi. apply kept_rows_spec in Hi. destruct Hi as [Hi Hne].
      rewrite forallb_forall in Hok.
      apply nll_nonneg.
      apply (target_ok_class _ ignore_index); [|exact Hne].
      apply Hok. apply in_seq_0. exact Hi.
    + apply Rlt_le, Rinv_0_lt_compat.
      apply (lt_0_INR (S (length ks))). lia.
Qed.

Lemma nonneg_add (a b : scalar) :
  nonneg a -> nonneg b -> nonneg (scalar_add a b).
Proof. destruct a, b; simpl; intros; try exact I. lra. Qed.

Lemma nonneg_half (a : scalar) : nonneg a -> nonneg (scalar_div a 2).
Proof. destruct a; simpl; intros; [lra|exact I]. Qed.

Lemma contrastive_nonneg (s : R) (I T : Matrix) (lpi lpt : Matrix)
    (labels : IntVector) (itc_loss : scalar) :
  contrastive s I T = Ok (lpi, lpt, labels, itc_loss) -> nonneg itc_loss.
Proof.
  unfold contrastive.
  destruct (matmul _ _) as [m|e]; simpl; [|discriminate].
  destruct (cross_entropy m _ _) as [a|e] eqn:Ha; simpl; [|discriminate].
  destruct (cross_entropy (transpose m) _ _) as [b|e] eqn:Hb; simpl;
    [|discriminate].
  intros H. injection H as _ _ _ <-.
  apply nonneg_half, nonneg_add; eapply cross_entropy_nonneg; eassumption.
Qed.

(** X17: none of the three losses a forward pass returns is negative. *)
Theorem forward_losses_nonneg (m : Model)
    (inp : Tensor4 * IntMatrix * IntMatrix) (out : Output) :
  forward m inp = Ok out ->
  nonneg (out_itc_loss out) /\ nonneg (out_mlm_loss out)
  /\ nonneg (out_total_loss out).
Proof.
  destruct inp as [[images texts] targets]. intros H.
  apply forward_inv in H.
  destruct H as ((lpi & lpt & labels & Hitc) & Hg & _ & Htot).
  apply contrastive_nonneg in Hitc.
  apply generative_inv in Hg. destruct Hg as (input & _ & Hce).
  apply cross_entropy_nonneg in Hce.
  rewrite Htot. repeat split; try assumption.
  apply nonneg_add; assumption.
Qed.

(** Witness of [forward_losses_nonneg]. *)
Lemma forward_losses_nonneg_witness :
  exists out,
    forward (model0 2 0) (images0, texts0, targets0) = Ok out
    /\ nonneg (out_itc_loss out) /\ nonneg (out_mlm_loss out)
    /\ nonneg (out_total_loss out).
Proof.
  eexists. split; [reflexivity|].
  apply (forward_losses_nonneg (model0 2 0) (images0, texts0, targets0)).
  reflexivity.
Defined.

(** ** Losses of batches with negatives are positive *)








(** ** Shapes and symmetry of the contrastive loss *)


(** The similarity matrix of the code, with its shape and entries. *)
Lemma logits_per_image_entries (s : R) (I T : Matrix) :
  cols I = cols T ->
  exists lpi,
    matmul (scale (exp s) I) (transpose T) = Ok lpi
    /\ rows lpi = rows I /\ cols lpi = rows T
    /\ forall i j,
         at2 lpi i j
         = Rsum (seq 0 (cols I)) (fun k => exp s * at2 I i k * at2 T j k).
Proof.
  intros Hc. unfold matmul. simpl. rewrite Hc, Nat.eqb_refl.
  eexists. split; [reflexivity|]. simpl. repeat split.
Qed.

Lemma contrastive_defined (s : R) (I T : Matrix) :
  rows I = rows T -> cols I = cols T ->
  exists r, contrastive s I T = Ok r.
Proof.
  intros Hr Hc.
  destruct (logits_per_image_entries s I T Hc) as (m & Hm & Hmr & Hmc & _).
  unfold contrastive. rewrite Hm. simpl.
  rewrite (cross_entropy_arange m (rows m)) by congruence.
  rewrite (cross_entropy_arange (transpose m) (rows m))
    by (simpl; congruence).
  simpl. eexists. reflexivity.
Qed.


(** X19: the contrastive part is defined exactly on batches of one size
    and one width; otherwise it raises: [RuntimeError] on different widths,
    [IndexError] on more images than texts, [ValueError] on fewer. *)
Theorem contrastive_shapes (s : R) (I T : Matrix) :
  (cols I <> cols T -> contrastive s I T = Raise RuntimeError)
  /\ (cols I = cols T -> (rows T < rows I)%nat ->
      contrastive s I T = Raise IndexError)
  /\ (cols I = cols T -> (rows I < rows T)%nat ->
      contrastive s I T = Raise ValueError)
  /\ (cols I = cols T -> rows I = rows T ->
      exists r, contrastive s I T = Ok r).
Proof.
  split; [|split; [|split]].
  - intros Hc. unfold contrastive.
    rewrite matmul_shape_error by (simpl; exact Hc). reflexivity.
  - intros Hc Hr.
    destruct (logits_per_image_entries s I T Hc) as (m & Hm & Hmr & Hmc & _).
    unfold contrastive. rewrite Hm. simpl.
    unfold cross_entropy at 1. simpl ilen. rewrite Nat.eqb_refl. simpl negb.
    cbv iota.
    destruct (forallb _ _) eqn:Hok; [|reflexivity].
    exfalso. rewrite forallb_forall in Hok.
    specialize (Hok (rows T)). rewrite Hmr in Hok.
    specialize (Hok (proj2 (in_seq_0 _ _) Hr)).
    unfold target_ok, default_ignore_index in Hok. simpl iat in Hok.
    rewrite Hmc in Hok.
    apply orb_true_iff in Hok. destruct Hok as [H|H].
    + apply Z.eqb_eq in H. lia.
    + apply andb_true_iff in H. destruct H as [_ H].
      apply Z.ltb_lt in H. lia.
  - intros Hc Hr.
    destruct (logits_per_image_entries s I T Hc) as (m & Hm & Hmr & Hmc & _).
    unfold contrastive. rewrite Hm. simpl.
    destruct (cross_entropy m _ _) as [a|e] eqn:Ha.
    + simpl. unfold cross_entropy. simpl rows. simpl ilen.
      rewrite Hmc, Hmr.
      destruct (Nat.eqb_spec (rows T) (rows I)) as [E|E]; [lia|reflexivity].
    + exfalso. revert Ha. unfold cross_entropy. simpl ilen.
      rewrite Nat.eqb_refl. simpl negb. cbv iota.
      replace (forallb _ _) with true; [destruct (kept_rows _ _ _); discriminate|].
      symmetry. apply forallb_forall. intros i Hi. apply in_seq_0 in Hi.
      unfold target_ok. simpl iat. apply orb_true_iff. right.
      apply andb_true_iff. split; [apply Z.leb_le|apply Z.ltb_lt]; lia.
  - intros Hc Hr.
    destruct (contrastive_defined s I T Hr Hc) as [r Hr'].
    exists r. exact Hr'.
Qed.


(** Witness of [contrastive_shapes]: one pair of batches per case. *)
Lemma contrastive_shapes_witness :
  contrastive 0 (embds 2) (wide 2) = Raise RuntimeError
  /\ contrastive 0 (embds 3) (embds 2) = Raise IndexError
  /\ contrastive 0 (embds 2) (embds 3) = Raise ValueError
  /\ exists r, contrastive 0 (embds 2) (embds 2) = Ok r.
Proof.
  split; [|split; [|split]].
  - apply (contrastive_shapes 0 (embds 2) (wide 2)). simpl. lia.
  - apply (contrastive_shapes 0 (embds 3) (embds 2)); simpl; lia.
  - apply (contrastive_shapes 0 (embds 2) (embds 3)); simpl; lia.
  - apply (contrastive_shapes 0 (embds 2) (embds 2)); reflexivity.
Defined.

(** ** Degenerate batches *)

Lemma filter_none {B : Type} (f : B -> bool) (l : list B) :
  (forall x, In x l -> f x = false) -> filter f l = [].
Proof.
  induction l as [|x l IH]; intros H; simpl; [reflexivity|].
  rewrite (H x) by (left; reflexivity).
  apply IH. intros y Hy. apply H. right. exact Hy.
Qed.

Lemma cross_entropy_all_ignored (x : Matrix) (target : IntVector)
    (ignore_index : Z) (v : scalar) :
  (forall p, (p < ilen target)%nat -> iat target p = ignore_index) ->
  cross_entropy x target ignore_index = Ok v -> v = NaN.
Proof.
  intros Hall. unfold cross_entropy.
  destruct (Nat.eqb_spec (rows x) (ilen target)) as [E|E]; simpl;
    [|discriminate].
  destruct (forallb _ _); simpl; [|discriminate].
  unfold kept_rows. rewrite filter_none.
  - intros H. injection H as <-. reflexivity.
  - intros p Hp. apply in_seq_0 in Hp.
    apply negb_false_iff, Z.eqb_eq, Hall. lia.
Qed.

(** X20: when every target of the batch is the sentinel -1, the
    masked-token loss of a forward pass that returns is not a number, and so
    is the total loss. *)
Theorem forward_all_masked (m : Model) (images : Tensor4)
    (texts targets : IntMatrix) (out : Output) :
  forward m (images, texts, targets) = Ok out ->
  (forall i j, (i < irows targets)%nat -> (j < icols targets)%nat ->
               iat2 targets i j = (-1)%Z) ->
  out_mlm_loss out = NaN /\ out_total_loss out = NaN.
Proof.
  intros H Hall. apply forward_inv in H.
  destruct H as (_ & Hg & _ & Htot).
  apply generative_inv in Hg. destruct Hg as (input & _ & Hce).
  apply cross_entropy_all_ignored in Hce.
  - rewrite Htot, Hce. split; [reflexivity|].
    destruct (out_itc_loss out); reflexivity.
  - simpl. intros p Hp.
    assert (Hc : icols targets <> 0%nat) by (intros E; rewrite E in Hp; lia).
    apply Hall.
    + apply Nat.Div0.div_lt_upper_bound. lia.
    + apply Nat.mod_upper_bound. exact Hc.
Qed.

(** Witness of [forward_all_masked]. *)
Lemma forward_all_masked_witness :
  exists out,
    forward (model0 2 0) (images0, texts0, masked_targets) = Ok out
    /\ out_mlm_loss out = NaN /\ out_total_loss out = NaN.
Proof.
  eexists. split; [reflexivity|].
  apply (forward_all_masked (model0 2 0) images0 texts0 masked_targets);
    reflexivity.
Defined.




(** ** Fusion, slicing and flattening *)

(** X24: the positions handed to the token head are the text positions:
    slicing the last [dim1 txt] positions off the concatenation of image
    and text features gives back the text features, unless the text
    sequence is empty, in which case the slice [-0:] is the whole
    concatenation. *)
Theorem fused_text_positions (img txt out : Tensor3) :
  cat1 img txt = Ok out ->
  ((0 < dim1 txt)%nat ->
   let s := last_positions out (dim1 txt) in
   dim0 s = dim0 txt /\ dim1 s = dim1 txt /\ dim2 s = dim2 txt
   /\ forall i j k, at3 s i j k = at3 txt i j k)
  /\ (dim1 txt = 0%nat ->
      let s := last_positions out 0 in
      dim1 s = dim1 img /\ forall i j k, at3 s i j k = at3 out i j k).
Proof.
  unfold cat1.
  destruct (Nat.eqb_spec (dim0 img) (dim0 txt)) as [H0|H0]; simpl;
    [|discriminate].
  destruct (Nat.eqb_spec (dim2 img) (dim2 txt)) as [H2|H2]; simpl;
    [|discriminate].
  intros H. injection H as <-. split.
  - intros Hpos. unfold last_positions.
    destruct (dim1 txt) as [|n] eqn:Hn; [lia|]. simpl.
    repeat split; try congruence; try lia.
    intros i j k.
    destruct (Nat.ltb_spec (dim1 img + S n - S n + j) (dim1 img)); [lia|].
    f_equal. lia.
  - intros Hz. unfold last_positions. simpl.
    split; [lia|]. intros i j k. reflexivity.
Qed.

(** Witness of [fused_text_positions]: one image position, two text
    positions. *)
Lemma fused_text_positions_witness :
  exists out,
    cat1 (features 2 1) (features 2 2) = Ok out
    /\ dim1 (last_positions out 2) = 2%nat
    /\ forall i j k,
         at3 (last_positions out 2) i j k = at3 (features 2 2) i j k.
Proof.
  eexists. split; [reflexivity|].
  match goal with |- dim1 (last_positions ?o _) = _ /\ _ => pose (o0 := o) end.
  destruct (fused_text_positions (features 2 1) (features 2 2) o0 eq_refl)
    as [Hpos _].
  destruct (Hpos ltac:(simpl; lia)) as (_ & H1 & _ & Hat).
  split; [exact H1|exact Hat].
Defined.

(** X25: flattening keeps logits and targets aligned: when the logits
    have as many positions per sample as the targets, row [b * L + l] of
    the flattened logits and entry [b * L + l] of the flattened targets are
    the logits and the target of position [(b, l)]. *)
Theorem views_aligned (logits : Tensor3) (targets : IntMatrix)
    (input : Matrix) (b l v : nat) :
  view2 logits = Ok input ->
  dim1 logits = icols targets -> (l < icols targets)%nat ->
  at2 input (b * icols targets + l) v = at3 logits b l v
  /\ iat (view1 targets) (b * icols targets + l) = iat2 targets b l.
Proof.
  unfold view2. destruct (Nat.eqb (dim2 logits) 0); [discriminate|].
  intros H Hd Hl. injection H as <-. simpl. rewrite Hd.
  assert (Hdiv : ((b * icols targets + l) / icols targets = b)%nat).
  { rewrite Nat.div_add_l by lia. rewrite Nat.div_small by exact Hl. lia. }
  assert (Hmod : ((b * icols targets + l) mod icols targets = l)%nat).
  { rewrite Nat.add_comm, Nat.Div0.mod_add. apply Nat.mod_small. exact Hl. }
  rewrite Hdiv, Hmod. split; reflexivity.
Qed.

(** Witness of [views_aligned]: position (1, 0) of a batch of two texts
    of two tokens. *)
Lemma views_aligned_witness :
  exists input,
    view2 (head 0 (features 2 2)) = Ok input
    /\ at2 input (1 * icols targets0 + 0) 2
       = at3 (head 0 (features 2 2)) 1 0 2
    /\ iat (view1 targets0) (1 * icols targets0 + 0) = iat2 targets0 1 0.
Proof.
  eexists. split; [reflexivity|].
  apply (views_aligned (head 0 (features 2 2)) targets0 _ 1 0 2);
    [reflexivity|reflexivity|simpl; lia].
Defined.

(** ** The encoders *)

Lemma last_token_defined (out : Tensor3) :
  dim1 out <> 0%nat ->
  exists last,
    last_token out = Ok last
    /\ rows last = dim0 out /\ cols last = dim2 out
    /\ forall i k, at2 last i k = at3 out i (dim1 out - 1) k.
Proof.
  intros H. unfold last_token. apply Nat.eqb_neq in H. rewrite H.
  eexists. split; [reflexivity|]. simpl. repeat split.
Qed.

Lemma linear_defined (l : Linear) (x : Matrix) :
  cols x = in_features l ->
  exists y,
    linear l x = Ok y
    /\ rows y = rows x /\ cols y = out_features l
    /\ forall i o,
         at2 y i o
         = Rsum (seq 0 (in_features l)) (fun k => at2 x i k * weight l o k)
           + bias l o.
Proof.
  intros H. unfold linear. rewrite H, Nat.eqb_refl.
  eexists. split; [reflexivity|]. simpl. repeat split.
Qed.

(** The common body of the two encoders. *)
Lemma project_last_token (proj : Linear) (out : Tensor3) :
  (dim1 out = 0%nat ->
   bind (last_token out) (fun last => linear proj last) = Raise IndexError)
  /\ (dim1 out <> 0%nat -> dim2 out <> in_features proj ->
      bind (last_token out) (fun last => linear proj last)
      = Raise RuntimeError)
  /\ (dim1 out <> 0%nat -> dim2 out = in_features proj ->
      exists embd,
        bind (last_token out) (fun last => linear proj last) = Ok embd
        /\ rows embd = dim0 out /\ cols embd = out_features proj
        /\ forall i o,
             at2 embd i o
             = Rsum (seq 0 (in_features proj))
                    (fun k => at3 out i (dim1 out - 1) k * weight proj o k)
               + bias proj o).
Proof.
  split; [|split].
  - intros H. unfold last_token. rewrite H. reflexivity.
  - intros H1 H2.
    destruct (last_token_defined out H1) as (last & Hl & _ & Hc & _).
    rewrite Hl. simpl. unfold linear. rewrite Hc.
    apply Nat.eqb_neq in H2. rewrite H2. reflexivity.
  - intros H1 H2.
    destruct (last_token_defined out H1) as (last & Hl & Hr & Hc & Hat).
    destruct (linear_defined proj last) as (y & Hy & Hyr & Hyc & Hyat);
      [congruence|].
    rewrite Hl. simpl. exists y. split; [exact Hy|].
    split; [congruence|]. split; [exact Hyc|].
    intros i o. rewrite Hyat. f_equal.
    apply Rsum_ext. intros k _. rewrite Hat. reflexivity.
Qed.

Lemma image_encoder_forward_eq (e : ImageEncoder) (inp : Tensor4) :
  image_encoder_forward e inp
  = bind (bind (last_token (img_backbone e inp))
               (fun last => linear (img_proj e) last))
         (fun embd => Ok (embd, img_backbone e inp)).
Proof.
  unfold image_encoder_forward. cbv zeta.
  destruct (last_token _); reflexivity.
Qed.

Lemma text_encoder_forward_eq (e : TextEncoder) (inp : IntMatrix) :
  text_encoder_forward e inp
  = bind (bind (last_token (txt_backbone e inp))
               (fun last => linear (txt_proj e) last))
         (fun embd => Ok (embd, txt_backbone e inp)).
Proof.
  unfold text_encoder_forward. cbv zeta.
  destruct (last_token _); reflexivity.
Qed.

(** X26: an encoder fails on an empty feature sequence ([IndexError]) and
    on a feature width its projection does not take ([RuntimeError]);
    otherwise it returns the backbone's features unchanged and one embedding
    of width [out_features] per sample. *)
Theorem image_encoder_forward_cases (e : ImageEncoder) (inp : Tensor4) :
  let out := img_backbone e inp in
  (dim1 out = 0%nat -> image_encoder_forward e inp = Raise IndexError)
  /\ (dim1 out <> 0%nat -> dim2 out <> in_features (img_proj e) ->
      image_encoder_forward e inp = Raise RuntimeError)
  /\ (dim1 out <> 0%nat -> dim2 out = in_features (img_proj e) ->
      exists embd,
        image_encoder_forward e inp = Ok (embd, out)
        /\ rows embd = dim0 out
        /\ cols embd = out_features (img_proj e)).
Proof.
  intros out. rewrite image_encoder_forward_eq. fold out.
  destruct (project_last_token (img_proj e) out) as (H1 & H2 & H3).
  split; [|split].
  - intros H. rewrite (H1 H). reflexivity.
  - intros Ha Hb. rewrite (H2 Ha Hb). reflexivity.
  - intros Ha Hb. destruct (H3 Ha Hb) as (embd & He & Hr & Hc & _).
    exists embd. rewrite He. repeat split; assumption.
Qed.

(** Witness of [image_encoder_forward_cases]: an empty sequence, a width
    of 5 for a projection from width 1, and a fitting backbone. *)
Lemma image_encoder_forward_cases_witness :
  image_encoder_forward (shaped_encoder 0 1) images0 = Raise IndexError
  /\ image_encoder_forward (shaped_encoder 3 5) images0 = Raise RuntimeError
  /\ exists embd,
       image_encoder_forward (shaped_encoder 3 1) images0
       = Ok (embd, shaped_backbone 3 1 images0)
       /\ rows embd = 2%nat /\ cols embd = 2%nat.
Proof.
  split; [|split].
  - apply (image_encoder_forward_cases (shaped_encoder 0 1) images0).
    reflexivity.
  - apply (image_encoder_forward_cases (shaped_encoder 3 5) images0);
      simpl; lia.
  - apply (image_encoder_forward_cases (shaped_encoder 3 1) images0);
      simpl; lia.
Defined.



(** X28: the encoders fit the contrastive loss: when both encoders
    return, project to one width and see batches of one size, the
    contrastive part of the forward pass is defined on their normalized
    embeddings. *)
Theorem encoders_feed_contrastive (ie : ImageEncoder) (te : TextEncoder)
    (images : Tensor4) (texts : IntMatrix) (s : R)
    (img_embds txt_embds : Matrix) (img_feature txt_feature : Tensor3) :
  image_encoder_forward ie images = Ok (img_embds, img_feature) ->
  text_encoder_forward te texts = Ok (txt_embds, txt_feature) ->
  out_features (img_proj ie) = out_features (txt_proj te) ->
  dim0 img_feature = dim0 txt_feature ->
  exists r,
    contrastive s (normalize img_embds) (normalize txt_embds) = Ok r.
Proof.
  intros Hi Ht Hw Hn.
  assert (Hshape : forall (proj : Linear) (out : Tensor3) embd,
            bind (last_token out) (fun last => linear proj last) = Ok embd ->
            rows embd = dim0 out /\ cols embd = out_features proj).
  { intros proj out embd He.
    destruct (project_last_token proj out) as (H1 & H2 & H3).
    destruct (Nat.eq_dec (dim1 out) 0) as [Hz|Hz];
      [rewrite (H1 Hz) in He; discriminate|].
    destruct (Nat.eq_dec (dim2 out) (in_features proj)) as [Hd|Hd];
      [|rewrite (H2 Hz Hd) in He; discriminate].
    destruct (H3 Hz Hd) as (y & Hy & Hr & Hc & _).
    rewrite Hy in He. injection He as <-. split; assumption. }
  rewrite image_encoder_forward_eq in Hi.
  destruct (bind (last_token (img_backbone ie images)) _) as [y|] eqn:Hy;
    simpl in Hi; [|discriminate].
  injection Hi as <- <-.
  rewrite text_encoder_forward_eq in Ht.
  destruct (bind (last_token (txt_backbone te texts)) _) as [y'|] eqn:Hy';
    simpl in Ht; [|discriminate].
  injection Ht as <- <-.
  apply Hshape in Hy. apply Hshape in Hy'.
  destruct Hy as [Hr Hc]. destruct Hy' as [Hr' Hc'].
  apply contrastive_defined; simpl; congruence.
Qed.

(** Witness of [encoders_feed_contrastive]: a batch of two pairs. *)
Lemma encoders_feed_contrastive_witness :
  exists img_embds txt_embds img_feature txt_feature r,
    image_encoder_forward (image_encoder0 0) images0
    = Ok (img_embds, img_feature)
    /\ text_encoder_forward (text_encoder0 0) texts0
       = Ok (txt_embds, txt_feature)
    /\ contrastive (ln (100 / 7)) (normalize img_embds) (normalize txt_embds)
       = Ok r.
Proof.
  destruct (encoders_feed_contrastive (image_encoder0 0) (text_encoder0 0)
              images0 texts0 (ln (100 / 7)) _ _ _ _ eq_refl eq_refl
              eq_refl eq_refl) as [r Hr].
  do 4 eexists. exists r. split; [reflexivity|]. split; [reflexivity|].
  exact Hr.
Defined.

End ALBEFMore.
